(** * Camera application with face filters (MatLab/project/sendver.py)

    A shallow embedding of [CameraApp]: the application object, its
    slot methods ([toggle_filter], [toggle_background], [update_frame],
    [apply_face_filter], [capture_image]) and the event loop that calls
    them.  OpenCV, MediaPipe and the [filters] module are collaborators
    whose code is not part of sendver.py; they are gathered in the
    record [Env] and every call to them is written to a log, so that
    statements of the form "called once per face" can be read off it. *)

From stdpp Require Import base option list gmap strings.

Open Scope string_scope.
Open Scope list_scope.
Open Scope nat_scope.

(** ** Data *)

(** A numpy array of 8-bit values: its [shape] tuple and its flat data.
    A camera frame is expected to have shape [(height, width, 3)]. *)
Record ndarray := NdArray { shape : list nat; data : list Z }.

Definition Frame := ndarray.

#[global] Instance ndarray_eq_dec : EqDecision ndarray.
Proof. solve_decision. Defined.

(** [frame.shape] is a well-formed colour frame: three axes, three channels. *)
Definition valid_shape (f : Frame) : bool :=
  match shape f with
  | [_; _; ch] => bool_decide (ch = 3)
  | _ => false
  end.

(** One landmark of the face mesh, and the per-face result object whose
    [landmark] attribute the filters receive.  Coordinates are never
    inspected by sendver.py; they are carried as scaled integers. *)
Record Landmark := { lm_x : Z; lm_y : Z; lm_z : Z }.
Record NormalizedLandmarkList := { landmark : list Landmark }.

#[global] Instance Landmark_eq_dec : EqDecision Landmark.
Proof. solve_decision. Defined.
#[global] Instance NormalizedLandmarkList_eq_dec : EqDecision NormalizedLandmarkList.
Proof. solve_decision. Defined.

(** A Python exception: class name and argument. *)
Record exn := PyExn { exn_class : string; exn_arg : string }.

#[global] Instance exn_eq_dec : EqDecision exn.
Proof. solve_decision. Defined.

Definition KeyError (key : string) : exn := PyExn "KeyError" key.
Definition ValueError (msg : string) : exn := PyExn "ValueError" msg.

Inductive result (A : Type) : Type :=
| Ok (a : A)
| Raise (e : exn).
Arguments Ok {A} a.
Arguments Raise {A} e.

(** ** Collaborators *)

(** The calls sendver.py makes into cv2, mediapipe and filters.
    [cv2_imread] follows OpenCV: an unreadable file yields [None], not an
    exception.  [FaceMesh_process n] is the [process] method of a
    [FaceMesh(max_num_faces=n)]; its value is the [multi_face_landmarks]
    attribute of the result ([None] when no face is found).  It is taken
    as a function of the image: what MediaPipe keeps inside the detector
    object from one call to the next is not modelled.
    [add_blush], [overlay_sunglasses] and [overlay_rabbit_ears] draw into
    the array they are given: their value here is the content of that
    array after the call.  [apply_background_change] returns an array. *)
Record Env := {
  cv2_flip : Frame → result Frame;
  cv2_cvtColor : Frame → result Frame;
  cv2_imread : string → option ndarray;
  FaceMesh_process : nat → Frame → result (option (list NormalizedLandmarkList));
  add_blush : Frame → list Landmark → result Frame;
  overlay_sunglasses : Frame → list Landmark → result Frame;
  overlay_rabbit_ears : Frame → list Landmark → result Frame;
  apply_background_change : Frame → list Landmark → option ndarray → result Frame;
}.

(** The log of calls to collaborators, in program order. *)
Inductive call :=
| Call_flip
| Call_cvtColor (src : Frame)
| Call_process (image : Frame)
| Call_add_blush (lms : list Landmark)
| Call_overlay_sunglasses (lms : list Landmark)
| Call_overlay_rabbit_ears (lms : list Landmark)
| Call_imread (path : string)
| Call_apply_background_change (lms : list Landmark) (bg_image : option ndarray)
| Call_imwrite (path : string)
| Call_imshow.

#[global] Instance call_eq_dec : EqDecision call.
Proof. solve_decision. Defined.

(** ** The application object *)

(** What [QImage(rgb.data, w, h, bytes_per_line, Format_RGB888)] shows. *)
Record Pixmap := {
  pix_width : nat; pix_height : nat; pix_bytes_per_line : nat;
  pix_data : list Z
}.

(** The attributes of [self] that the slots read or write.
    [current_frame = None] stands for the attribute not being set yet
    ([hasattr] is false).  [zoom_factor] is a float that only the zoom
    slots touch and is left out. *)
Record CameraApp := {
  face_mesh_max_num_faces : nat;
  filter_states : gmap string bool;
  background_images : gmap Z string;
  current_background : option string;
  current_frame : option Frame;
  scene : list Pixmap;
  timer_active : bool;
}.

(** [CameraApp.__init__] *)
Definition CameraApp_init : CameraApp := {|
  face_mesh_max_num_faces := 10;
  filter_states :=
    <["Background" := false]> (<["RabbitEars" := false]>
      (<["Sunglasses" := false]> (<["Blush" := false]> ∅)));
  background_images := <[2%Z := "background.jpg"]> (<[1%Z := "space.jpg"]> ∅);
  current_background := None;
  current_frame := None;
  scene := [];
  timer_active := false;
|}.

Definition set_filter_states (m : gmap string bool) (s : CameraApp) : CameraApp :=
  {| face_mesh_max_num_faces := face_mesh_max_num_faces s;
     filter_states := m;
     background_images := background_images s;
     current_background := current_background s;
     current_frame := current_frame s;
     scene := scene s;
     timer_active := timer_active s |}.

Definition set_current_background (b : option string) (s : CameraApp) : CameraApp :=
  {| face_mesh_max_num_faces := face_mesh_max_num_faces s;
     filter_states := filter_states s;
     background_images := background_images s;
     current_background := b;
     current_frame := current_frame s;
     scene := scene s;
     timer_active := timer_active s |}.

Definition set_current_frame (f : option Frame) (s : CameraApp) : CameraApp :=
  {| face_mesh_max_num_faces := face_mesh_max_num_faces s;
     filter_states := filter_states s;
     background_images := background_images s;
     current_background := current_background s;
     current_frame := f;
     scene := scene s;
     timer_active := timer_active s |}.

Definition set_scene (sc : list Pixmap) (s : CameraApp) : CameraApp :=
  {| face_mesh_max_num_faces := face_mesh_max_num_faces s;
     filter_states := filter_states s;
     background_images := background_images s;
     current_background := current_background s;
     current_frame := current_frame s;
     scene := sc;
     timer_active := timer_active s |}.

Definition set_timer_active (b : bool) (s : CameraApp) : CameraApp :=
  {| face_mesh_max_num_faces := face_mesh_max_num_faces s;
     filter_states := filter_states s;
     background_images := background_images s;
     current_background := current_background s;
     current_frame := current_frame s;
     scene := scene s;
     timer_active := b |}.

(** ** A monad for the slots: state of [self], exceptions, call log *)

Definition M (A : Type) : Type := CameraApp → result A * CameraApp * list call.

Definition ret {A} (a : A) : M A := λ s, (Ok a, s, []).
Definition bind {A B} (m : M A) (f : A → M B) : M B := λ s,
  match m s with
  | (Ok a, s1, t1) => let '(r, s2, t2) := f a s1 in (r, s2, t1 ++ t2)
  | (Raise e, s1, t1) => (Raise e, s1, t1)
  end.

Notation "'let*' x := m 'in' k" := (bind m (λ x, k))
  (at level 10, x name, m at level 200, k at level 200).

Definition raise {A} (e : exn) : M A := λ s, (Raise e, s, []).
Definition gets {A} (f : CameraApp → A) : M A := λ s, (Ok (f s), s, []).
Definition modify (f : CameraApp → CameraApp) : M unit := λ s, (Ok tt, f s, []).
(** A call to a collaborator: logged, then its outcome. *)
Definition extern {A} (c : call) (r : result A) : M A := λ s, (r, s, [c]).

Definition outcome {A} (x : result A * CameraApp * list call) : result A := x.1.1.
Definition final {A} (x : result A * CameraApp * list call) : CameraApp := x.1.2.
Definition calls {A} (x : result A * CameraApp * list call) : list call := x.2.

(** [h, w, ch = rgb_image.shape] followed by
    [QImage(rgb_image.data, w, h, ch * w, QImage.Format_RGB888)];
    [None] when the shape does not unpack into three names. *)
Definition QImage_RGB888 (rgb_image : ndarray) : option Pixmap :=
  match shape rgb_image with
  | [h; w; ch] =>
      Some {| pix_width := w; pix_height := h; pix_bytes_per_line := ch * w;
              pix_data := data rgb_image |}
  | _ => None
  end.

(** [d[k]] on a dict: [KeyError] when the key is absent. *)
Definition getitem (d : gmap string bool) (k : string) : M bool :=
  match d !! k with
  | Some v => ret v
  | None => raise (KeyError k)
  end.

(** Truth value of [self.current_background]: [None] and the empty
    string are false. *)
Definition truthy_str (o : option string) : bool :=
  match o with
  | Some s => negb (bool_decide (s = ""))
  | None => false
  end.

(** Truth value of [results.multi_face_landmarks], and the sequence a
    [for] loop over it visits. *)
Definition truthy_list {A} (o : option (list A)) : bool :=
  match o with
  | Some (_ :: _) => true
  | _ => false
  end.

(** [any(d.values())] *)
Definition any_values (d : gmap string bool) : bool :=
  existsb id ((map_to_list d).*2).

Section Slots.
Variable env : Env.

(** [toggle_filter] *)
Definition toggle_filter (filter_name : string) : M unit :=
  let* d := gets filter_states in
  let* v := getitem d filter_name in
  modify (set_filter_states (<[filter_name := negb v]> d)).

(** [toggle_background] *)
Definition toggle_background (checked : bool) : M unit :=
  if checked then
    let* imgs := gets background_images in
    match imgs !! 1%Z with
    | Some path =>
        let* _ := modify (set_current_background (Some path)) in
        let* d := gets filter_states in
        modify (set_filter_states (<["Background" := true]> d))
    | None => raise (KeyError "1")
    end
  else
    let* _ := modify (set_current_background None) in
    let* d := gets filter_states in
    modify (set_filter_states (<["Background" := false]> d)).

(** [self.filter_states[name]] *)
Definition filter_state (name : string) : M bool :=
  let* d := gets filter_states in
  getitem d name.

(** The body of the loop over faces in [apply_face_filter]; [frame]
    is the local variable, rebound by the Background branch. *)
Definition face_body (frame : Frame) (face_landmarks : NormalizedLandmarkList)
  : M Frame :=
  let lms := landmark face_landmarks in
  let* blush := filter_state "Blush" in
  let* frame :=
    if blush then extern (Call_add_blush lms) (add_blush env frame lms)
    else ret frame in
  let* sunglasses := filter_state "Sunglasses" in
  let* frame :=
    if sunglasses
    then extern (Call_overlay_sunglasses lms) (overlay_sunglasses env frame lms)
    else ret frame in
  let* ears := filter_state "RabbitEars" in
  let* frame :=
    if ears
    then extern (Call_overlay_rabbit_ears lms) (overlay_rabbit_ears env frame lms)
    else ret frame in
  let* background := filter_state "Background" in
  let* cb := gets current_background in
  if background && truthy_str cb then
    let path := default "" cb in
    let* bg_image := extern (Call_imread path) (Ok (cv2_imread env path)) in
    extern (Call_apply_background_change lms bg_image)
           (apply_background_change env frame lms bg_image)
  else ret frame.

(** [for face_landmarks in faces: ...] *)
Fixpoint for_faces (faces : list NormalizedLandmarkList) (frame : Frame) : M Frame :=
  match faces with
  | [] => ret frame
  | face_landmarks :: rest =>
      let* frame := face_body frame face_landmarks in
      for_faces rest frame
  end.

(** [apply_face_filter] *)
Definition apply_face_filter (frame : Frame) : M Frame :=
  let* frame_rgb := extern (Call_cvtColor frame) (cv2_cvtColor env frame) in
  let* n := gets face_mesh_max_num_faces in
  let* results := extern (Call_process frame_rgb) (FaceMesh_process env n frame_rgb) in
  if truthy_list results then for_faces (default [] results) frame
  else ret frame.

(** [update_frame]; [reading] is what [self.cap.read()] returned:
    [Some frame] for [(True, frame)], [None] for [(False, None)]. *)
Definition update_frame (reading : option Frame) : M unit :=
  match reading with
  | Some frame =>
      let* frame := extern Call_flip (cv2_flip env frame) in
      let* d := gets filter_states in
      let* frame := if any_values d then apply_face_filter frame else ret frame in
      let* rgb_image := extern (Call_cvtColor frame) (cv2_cvtColor env frame) in
      match QImage_RGB888 rgb_image with
      | Some t_image =>
          let* _ := modify (set_scene []) in
          let* sc := gets scene in
          let* _ := modify (set_scene (sc ++ [t_image])) in
          modify (set_current_frame (Some frame))
      | None => raise (ValueError "unpack")
      end
  | None => modify (set_scene [])
  end.

(** [capture_image]: writes the stored frame to disk, reads it back
    and shows it in a window of its own.  [cv2.imwrite] reports a failed
    write by its return value, which is ignored; [cv2_imread] here is the
    file as it is after the write, [None] when it could not be written
    (no ./Images directory); [cv2.imshow] raises when handed [None]. *)
Definition capture_image : M unit :=
  let* cf := gets current_frame in
  match cf with
  | Some _ =>
      let* _ := extern (Call_imwrite "./Images/capture_image.png") (Ok tt) in
      let* captured_img := extern (Call_imread "./Images/capture_image.png")
                             (Ok (cv2_imread env "./Images/capture_image.png")) in
      extern Call_imshow
        (match captured_img with
         | Some _ => Ok tt
         | None => Raise (PyExn "cv2.error" "imshow")
         end)
  | None => ret tt
  end.

Definition start_camera : M unit := modify (set_timer_active true).
Definition stop_camera : M unit := modify (set_timer_active false).

(** ** The event loop *)

(** What the window can deliver to the slots, as wired in [initUI]
    and [__init__]: the three filter buttons call [toggle_filter] with
    their own name, the Background button calls [toggle_background]
    with its checked state, the timer calls [update_frame].  The zoom,
    wheel and mouse slots write only [zoom_factor], [drag_start] and
    the view's transform and scroll bars, which are not among the
    attributes above. *)
Inductive ui_event :=
| ToggleBlush
| ToggleSunglasses
| ToggleRabbitEars
| ToggleBackground (checked : bool)
| TimerTimeout (reading : option Frame)
| CaptureImage
| StartCamera.

Definition slot (ev : ui_event) : M unit :=
  match ev with
  | ToggleBlush => toggle_filter "Blush"
  | ToggleSunglasses => toggle_filter "Sunglasses"
  | ToggleRabbitEars => toggle_filter "RabbitEars"
  | ToggleBackground checked => toggle_background checked
  | TimerTimeout reading => update_frame reading
  | CaptureImage => capture_image
  | StartCamera => start_camera
  end.

(** One event: the slot runs; an exception ends the slot and the loop
    goes on with [self] as the slot left it. *)
Definition handle (s : CameraApp) (ev : ui_event) : CameraApp := final (slot ev s).

Definition run (evs : list ui_event) : CameraApp := foldl handle CameraApp_init evs.

End Slots.

(** ** Reading the log *)

(** Selectors for the calls of one kind. *)
Definition is_process (c : call) : bool :=
  match c with Call_process _ => true | _ => false end.
Definition is_add_blush (c : call) : bool :=
  match c with Call_add_blush _ => true | _ => false end.
Definition is_overlay_sunglasses (c : call) : bool :=
  match c with Call_overlay_sunglasses _ => true | _ => false end.
Definition is_overlay_rabbit_ears (c : call) : bool :=
  match c with Call_overlay_rabbit_ears _ => true | _ => false end.
Definition is_apply_background_change (c : call) : bool :=
  match c with Call_apply_background_change _ _ => true | _ => false end.
Definition is_imread (c : call) : bool :=
  match c with Call_imread _ => true | _ => false end.
(** Any of the four compositing functions of the [filters] module. *)
Definition is_compositing (c : call) : bool :=
  is_add_blush c || is_overlay_sunglasses c || is_overlay_rabbit_ears c
  || is_apply_background_change c.

(** [filter_states[name]] is present and true. *)
Definition flag (s : CameraApp) (name : string) : bool :=
  bool_decide (filter_states s !! name = Some true).

(** The Background branch of the loop body is taken. *)
Definition background_active (s : CameraApp) : bool :=
  flag s "Background" && truthy_str (current_background s).

(** The calls one complete pass of the loop body makes for one face. *)
Definition face_calls (env : Env) (s : CameraApp) (face : NormalizedLandmarkList)
  : list call :=
  let lms := landmark face in
  let path := default "" (current_background s) in
  (if flag s "Blush" then [Call_add_blush lms] else []) ++
  (if flag s "Sunglasses" then [Call_overlay_sunglasses lms] else []) ++
  (if flag s "RabbitEars" then [Call_overlay_rabbit_ears lms] else []) ++
  (if background_active s
   then [Call_imread path; Call_apply_background_change lms (cv2_imread env path)]
   else []).

(** ** Predicates the statements are written with *)

(** The attributes that configure compositing. *)
Definition config (s : CameraApp)
  : nat * gmap string bool * gmap Z string * option string :=
  (face_mesh_max_num_faces s, filter_states s, background_images s,
   current_background s).

(** A computation that leaves those attributes as they were. *)
Definition keeps_config {A} (m : M A) : Prop := ∀ s, config (final (m s)) = config s.

(** A computation that never assigns an attribute of [self]. *)
Definition read_only {A} (m : M A) : Prop := ∀ s, final (m s) = s.

(** The four names the dict is created with. *)
Definition filter_names : list string :=
  ["Blush"; "Sunglasses"; "RabbitEars"; "Background"].

(** What holds of [self] between any two events. *)
Record invariant (s : CameraApp) : Prop := {
  inv_max_num_faces : face_mesh_max_num_faces s = 10;
  inv_background_images : background_images s = background_images CameraApp_init;
  inv_keys : ∀ k, k ∈ filter_names → is_Some (filter_states s !! k);
  inv_background :
    current_background s = if flag s "Background" then Some "space.jpg" else None;
}.

(** The events wired to [toggle_filter] and [toggle_background]. *)
Definition is_toggle (ev : ui_event) : bool :=
  match ev with
  | ToggleBlush | ToggleSunglasses | ToggleRabbitEars | ToggleBackground _ => true
  | _ => false
  end.

(** A predicate on calls that selects none of the calls made outside
    the loop over faces. *)
Definition per_face_only (P : call → bool) : Prop :=
  P Call_flip = false ∧ (∀ f, P (Call_cvtColor f) = false) ∧
  (∀ f, P (Call_process f) = false).

(** The faces a tick may iterate over: none, or a list the detector
    returned for the configured [max_num_faces]. *)
Definition detected (env : Env) (s : CameraApp) (faces : list NormalizedLandmarkList)
  : Prop :=
  faces = [] ∨
  ∃ image, FaceMesh_process env (face_mesh_max_num_faces s) image = Ok (Some faces).

(** What MediaPipe documents for [FaceMesh(max_num_faces=n)]: [process]
    never returns more than [n] landmark lists. *)
Definition respects_max_num_faces (env : Env) : Prop :=
  ∀ n image faces, FaceMesh_process env n image = Ok (Some faces) → length faces ≤ n.

(** The three overlays that draw into the frame. *)
Inductive overlay := Blush | Sunglasses | RabbitEars.

(** Its key in [filter_states]. *)
Definition overlay_name (o : overlay) : string :=
  match o with
  | Blush => "Blush"
  | Sunglasses => "Sunglasses"
  | RabbitEars => "RabbitEars"
  end.

(** The function of the [filters] module that draws it. *)
Definition overlay_fn (env : Env) (o : overlay)
  : Frame → list Landmark → result Frame :=
  match o with
  | Blush => add_blush env
  | Sunglasses => overlay_sunglasses env
  | RabbitEars => overlay_rabbit_ears env
  end.

(** The logged call of that function for one face. *)
Definition overlay_call (o : overlay) (lms : list Landmark) : call :=
  match o with
  | Blush => Call_add_blush lms
  | Sunglasses => Call_overlay_sunglasses lms
  | RabbitEars => Call_overlay_rabbit_ears lms
  end.

(** The flag of [o] is set and the other three are not. *)
Definition only_active (s : CameraApp) (o : overlay) : Prop :=
  ∀ k, k ∈ filter_names →
    filter_states s !! k = Some (bool_decide (k = overlay_name o)).

(** An overlay that covers what was there: inside [region lms] the
    frame it leaves holds [colour lms], whatever the frame held before. *)
Definition opaque (F : Frame → list Landmark → result Frame)
    (region : list Landmark → nat → bool) (colour : list Landmark → nat → Z)
  : Prop :=
  ∀ f lms f' i v,
    F f lms = Ok f' → region lms i = true → data f' !! i = Some v →
    v = colour lms i.

(** [e] is an exception that some call [apply_face_filter] makes into
    cv2, mediapipe or filters raises. *)
Definition raised_by (env : Env) (e : exn) : Prop :=
  (∃ f, cv2_cvtColor env f = Raise e) ∨
  (∃ n f, FaceMesh_process env n f = Raise e) ∨
  (∃ f l, add_blush env f l = Raise e) ∨
  (∃ f l, overlay_sunglasses env f l = Raise e) ∨
  (∃ f l, overlay_rabbit_ears env f l = Raise e) ∨
  (∃ f l b, apply_background_change env f l b = Raise e).

(** Collaborators under which a tick cannot fail: no call raises, and
    what [cvtColor] returns has three axes. *)
Definition well_behaved (env : Env) : Prop :=
  (∀ e, ¬ raised_by env e) ∧
  (∀ f, ∃ f', cv2_flip env f = Ok f') ∧
  (∀ f rgb, cv2_cvtColor env f = Ok rgb → is_Some (QImage_RGB888 rgb)).

(** ** Replaying a log on a frame *)

(** What one logged call does to the frame it is given: the four
    compositing calls apply their function, every other call leaves the
    frame alone. *)
Definition replay_call (env : Env) (c : call) (frame : Frame) : result Frame :=
  match c with
  | Call_add_blush lms => add_blush env frame lms
  | Call_overlay_sunglasses lms => overlay_sunglasses env frame lms
  | Call_overlay_rabbit_ears lms => overlay_rabbit_ears env frame lms
  | Call_apply_background_change lms bg_image =>
      apply_background_change env frame lms bg_image
  | _ => Ok frame
  end.

(** The calls of a log applied one after the other, each to the frame
    the call before it left; the first exception ends the replay. *)
Fixpoint replay (env : Env) (cs : list call) (frame : Frame) : result Frame :=
  match cs with
  | [] => Ok frame
  | c :: rest =>
      match replay_call env c frame with
      | Ok frame' => replay env rest frame'
      | Raise e => Raise e
      end
  end.

(** Call [c] never changes the value at index [i]. *)
Definition untouched (env : Env) (c : call) (i : nat) : Prop :=
  ∀ g g', replay_call env c g = Ok g' → data g' !! i = data g !! i.

(** Call [c] decides the value at index [i]: after it, that value is
    [v], whatever the frame held before. *)
Definition writes (env : Env) (c : call) (i : nat) (v : Z) : Prop :=
  ∀ g g' w, replay_call env c g = Ok g' → data g' !! i = Some w → w = v.

(** The four flags exist. *)
Definition keys_present (s : CameraApp) : Prop :=
  ∀ k, k ∈ filter_names → is_Some (filter_states s !! k).

(** [s] with the Background flag switched off and nothing else changed. *)
Definition background_off (s : CameraApp) : CameraApp :=
  set_filter_states (<["Background" := false]> (filter_states s)) s.

(** The Background calls of a log. *)
Definition is_background_call (c : call) : bool :=
  is_imread c || is_apply_background_change c.

(** Modelled from the spec: [filters.apply_background_change], whose code
    is not in sendver.py.  Background replacement derives a foreground
    mask from the landmarks ([segment]), replaces every pixel outside the
    mask with the pixel of the selected image resized to the frame
    ([resize]) and leaves the foreground untouched; when the image is
    missing (the file could not be read) the overlay is skipped and the
    frame is returned as it is. *)
Definition apply_background_change_spec
    (segment : Frame → list Landmark → nat → bool)
    (resize : ndarray → list nat → ndarray)
    (frame : Frame) (lms : list Landmark) (bg_image : option ndarray)
  : result Frame :=
  match bg_image with
  | None => Ok frame
  | Some img =>
      let bg := resize img (shape frame) in
      Ok (NdArray (shape frame)
            (imap (λ i v, if segment frame lms i then v
                          else default v (data bg !! i))
                  (data frame)))
  end.

(** ** A small world to run the slots in

    Landmarks carry a pixel index in [lm_x] and a tag of their face in
    [lm_y].  The three overlays paint their colour at the indices of the
    face; background replacement is the one modelled from the
    specification, with the indices of the face as foreground.  [flip]
    mirrors the columns.  [cvtColor] swaps the first and third channel
    of an [h × w × 3] or [h × w × 4] array and drops a fourth channel; a
    one-channel array comes back with three equal channels; an empty
    array and any other shape are rejected.  The detector reads
    [shape[2]]: that is an [IndexError] for fewer than three axes and a
    [ValueError] for other than three channels. *)
Module World.

Definition indices (lms : list Landmark) : list nat :=
  (λ l, Z.to_nat (lm_x l)) <$> lms.

Definition covers (lms : list Landmark) (i : nat) : bool :=
  bool_decide (i ∈ indices lms).

(** The tag of a face, carried in [lm_y] of its first landmark. *)
Definition tag (lms : list Landmark) : Z :=
  match lms with l :: _ => lm_y l | [] => 0 end.

Definition colour (base : Z) (lms : list Landmark) (i : nat) : Z :=
  (base + tag lms)%Z.

Definition paint (base : Z) (f : Frame) (lms : list Landmark) : Frame :=
  NdArray (shape f)
    (imap (λ i v, if covers lms i then colour base lms i else v) (data f)).

(** [l] cut into pieces of [n] values. *)
Fixpoint chunks_upto (fuel n : nat) (l : list Z) : list (list Z) :=
  match fuel, l with
  | S fuel', _ :: _ => take n l :: chunks_upto fuel' n (drop n l)
  | _, _ => []
  end.

Definition chunks (n : nat) (l : list Z) : list (list Z) :=
  chunks_upto (length l) n l.

(** [cv2.flip(f, 1)]: every row with its pixels in reverse order. *)
Definition flip (f : Frame) : Frame :=
  match shape f with
  | [_; w; ch] =>
      NdArray (shape f)
        (concat ((λ row, concat (reverse (chunks ch row)))
                   <$> chunks (w * ch) (data f)))
  | [_; w] => NdArray (shape f) (concat (reverse <$> chunks w (data f)))
  | _ => f
  end.

Fixpoint swap3 (d : list Z) : list Z :=
  match d with
  | b :: g :: r :: rest => r :: g :: b :: swap3 rest
  | _ => []
  end.

Fixpoint swap4 (d : list Z) : list Z :=
  match d with
  | b :: g :: r :: _ :: rest => r :: g :: b :: swap4 rest
  | _ => []
  end.

Definition thrice (d : list Z) : list Z := d ≫= λ v, [v; v; v].

Definition cvtColor (f : Frame) : result Frame :=
  match data f, shape f with
  | [], _ => Raise (PyExn "cv2.error" "!_src.empty()")
  | _, [h; w; 3] => Ok (NdArray [h; w; 3] (swap3 (data f)))
  | _, [h; w; 4] => Ok (NdArray [h; w; 3] (swap4 (data f)))
  | _, [h; w; 1] => Ok (NdArray [h; w; 3] (thrice (data f)))
  | _, [h; w] => Ok (NdArray [h; w; 3] (thrice (data f)))
  | _, _ => Raise (PyExn "cv2.error" "scn")
  end.

Definition process (detect : Frame → option (list NormalizedLandmarkList))
    (n : nat) (f : Frame) : result (option (list NormalizedLandmarkList)) :=
  match shape f !! 2 with
  | None => Raise (PyExn "IndexError" "tuple index out of range")
  | Some 3 => Ok (take n <$> detect f)
  | Some _ => Raise (ValueError "Input image must contain three channel rgb data.")
  end.

Definition make (files : gmap string ndarray)
    (detect : Frame → option (list NormalizedLandmarkList)) : Env := {|
  cv2_flip := λ f, Ok (flip f);
  cv2_cvtColor := cvtColor;
  cv2_imread := λ path, files !! path;
  FaceMesh_process := process detect;
  add_blush := λ f lms, Ok (paint 100 f lms);
  overlay_sunglasses := λ f lms, Ok (paint 200 f lms);
  overlay_rabbit_ears := λ f lms, Ok (paint 300 f lms);
  apply_background_change :=
    apply_background_change_spec (λ _, covers) (λ img _, img);
|}.

Definition lm (t i : Z) : Landmark := {| lm_x := i; lm_y := t; lm_z := 0 |}.
Definition face (t : Z) (l : list Z) : NormalizedLandmarkList :=
  {| landmark := lm t <$> l |}.

(** A 1 × 2 colour frame (six values) and a 1 × 1 array with an alpha
    channel. *)
Definition frame6 : Frame := NdArray [1; 2; 3] [10; 20; 30; 40; 50; 60]%Z.
Definition bgra4 : Frame := NdArray [1; 1; 4] [1; 2; 3; 255]%Z.
Definition space : ndarray := NdArray [1; 2; 3] [0; 0; 0; 0; 0; 0]%Z.

(** Two faces, tagged 1 and 2, that overlap at index 2; twelve faces;
    and no face at all. *)
Definition two_faces (_ : Frame) := Some [face 1 [1; 2]; face 2 [2; 3]]%Z.
Definition twelve_faces (_ : Frame) :=
  Some ((λ i : nat, face (Z.of_nat i) [0]%Z) <$> seq 0 12).
Definition no_face (_ : Frame) : option (list NormalizedLandmarkList) := None.

Definition with_space : gmap string ndarray := {[ "space.jpg" := space ]}.

(** A state whose dict lacks every key but Blush, as no slot leaves it:
    the lookup of the next flag raises [KeyError]. *)
Definition only_blush_key (s : CameraApp) : CameraApp :=
  set_filter_states {[ "Blush" := true ]} s.

End World.

(** ** Reading an event history *)

#[global] Instance overlay_eq_dec : EqDecision overlay.
Proof. solve_decision. Defined.

(** [ev] is the click on the button that toggles overlay [o]. *)
Definition toggles (o : overlay) (ev : ui_event) : bool :=
  match o, ev with
  | Blush, ToggleBlush => true
  | Sunglasses, ToggleSunglasses => true
  | RabbitEars, ToggleRabbitEars => true
  | _, _ => false
  end.

(** The [checked] state the Background button delivered last; [false]
    when it was never toggled. *)
Definition last_background (evs : list ui_event) : bool :=
  foldl (λ b ev, match ev with ToggleBackground checked => checked | _ => b end)
        false evs.

Definition is_start (ev : ui_event) : bool :=
  match ev with StartCamera => true | _ => false end.

(** A timer tick whose camera read succeeded. *)
Definition reads_frame (ev : ui_event) : bool :=
  match ev with TimerTimeout (Some _) => true | _ => false end.

(** A computation that leaves the attribute [p] of [self] as it was. *)
Definition keeps {A B} (p : CameraApp → B) (m : M A) : Prop :=
  ∀ s, p (final (m s)) = p s.

(** The scene is empty, or holds exactly the picture made from the
    stored [current_frame]. *)
Definition display_consistent (env : Env) (s : CameraApp) : Prop :=
  scene s = [] ∨
  ∃ frame rgb_image pixmap,
    current_frame s = Some frame ∧
    cv2_cvtColor env frame = Ok rgb_image ∧
    QImage_RGB888 rgb_image = Some pixmap ∧
    scene s = [pixmap].

(** [filter_states] has no key besides the four it was created with. *)
Definition only_filter_names (s : CameraApp) : Prop :=
  ∀ k, is_Some (filter_states s !! k) → k ∈ filter_names.

(** ** Laws of the slot monad *)

Lemma bind_Ok_inv {A B} (m : M A) (f : A → M B) s b s' t :
  bind m f s = (Ok b, s', t) →
  ∃ a s1 t1 t2, m s = (Ok a, s1, t1) ∧ f a s1 = (Ok b, s', t2) ∧ t = t1 ++ t2.
Proof.
  unfold bind. destruct (m s) as [[[a|e] s1] t1]; [|done].
  destruct (f a s1) as [[r s2] t2] eqn:Hf. intros [= -> -> <-].
  by exists a, s1, t1, t2.
Qed.

Lemma bind_Raise_inv {A B} (m : M A) (f : A → M B) s e s' t :
  bind m f s = (Raise e, s', t) →
  m s = (Raise e, s', t) ∨
  ∃ a s1 t1 t2, m s = (Ok a, s1, t1) ∧ f a s1 = (Raise e, s', t2) ∧ t = t1 ++ t2.
Proof.
  unfold bind. destruct (m s) as [[[a|e'] s1] t1].
  - destruct (f a s1) as [[r s2] t2] eqn:Hf. intros [= -> -> <-].
    right. by exists a, s1, t1, t2.
  - intros [= -> -> ->]. by left.
Qed.

Lemma read_only_bind {A B} (m : M A) (f : A → M B) :
  read_only m → (∀ a, read_only (f a)) → read_only (bind m f).
Proof.
  intros Hm Hf s. specialize (Hm s). unfold final, bind in *.
  destruct (m s) as [[[a|e] s1] t1]; simpl in *; subst; [|done].
  specialize (Hf a s). unfold final in Hf.
  by destruct (f a s) as [[r s2] t2].
Qed.

Lemma read_only_ret {A} (a : A) : read_only (ret a).
Proof. done. Qed.
Lemma read_only_raise {A} e : read_only (@raise A e).
Proof. done. Qed.
Lemma read_only_gets {A} (f : CameraApp → A) : read_only (gets f).
Proof. done. Qed.
Lemma read_only_extern {A} c (r : result A) : read_only (extern c r).
Proof. done. Qed.
Lemma read_only_getitem d k : read_only (getitem d k).
Proof. unfold getitem. by destruct (d !! k). Qed.

Create HintDb read_only.
#[global] Hint Resolve read_only_ret read_only_raise read_only_gets
  read_only_extern read_only_getitem : read_only.

Ltac read_only_tac :=
  repeat first
    [ apply read_only_bind; [|intros ?]
    | match goal with |- read_only (if ?b then _ else _) => destruct b end
    | solve [auto with read_only] ].

Section SlotFacts.
Variable env : Env.

Lemma read_only_filter_state name : read_only (filter_state name).
Proof. unfold filter_state. read_only_tac. Qed.

Lemma read_only_face_body frame face : read_only (face_body env frame face).
Proof.
  unfold face_body. pose proof read_only_filter_state. read_only_tac.
Qed.

Lemma read_only_for_faces faces : ∀ frame, read_only (for_faces env faces frame).
Proof.
  induction faces as [|face rest IH]; intros frame; simpl.
  - apply read_only_ret.
  - apply read_only_bind; [apply read_only_face_body | auto].
Qed.

Lemma read_only_apply_face_filter frame : read_only (apply_face_filter env frame).
Proof.
  unfold apply_face_filter. pose proof read_only_for_faces.
  read_only_tac.
Qed.

End SlotFacts.

Section LoopFacts.
Variable env : Env.

Lemma filter_state_eq name s :
  filter_state name s =
    match filter_states s !! name with
    | Some b => (Ok b, s, [])
    | None => (Raise (KeyError name), s, [])
    end.
Proof.
  unfold filter_state, bind, gets, getitem.
  by destruct (filter_states s !! name).
Qed.

Lemma filter_state_Ok name s b s' t :
  filter_state name s = (Ok b, s', t) →
  s' = s ∧ t = [] ∧ filter_states s !! name = Some b.
Proof.
  rewrite filter_state_eq.
  destruct (filter_states s !! name); by intros [= -> -> <-].
Qed.

Lemma flag_Some s name b : filter_states s !! name = Some b → flag s name = b.
Proof. unfold flag. intros ->. by destruct b. Qed.

(** [if b: f(frame, ...)] around a call that draws into [frame]. *)
Lemma guarded_call_Ok (b : bool) c (r : result Frame) frame s f' s' t :
  (if b then extern c r else ret frame) s = (Ok f', s', t) →
  s' = s ∧ t = (if b then [c] else []) ∧ (if b then r else Ok frame) = Ok f'.
Proof. destruct b; by intros [= -> -> <-]. Qed.

(** A pass of the loop body that completes has made exactly the calls
    of [face_calls], in that order. *)
Lemma face_body_Ok frame face s f' s' t :
  face_body env frame face s = (Ok f', s', t) → t = face_calls env s face.
Proof.
  unfold face_body, face_calls, background_active. intros H.
  apply bind_Ok_inv in H
    as (b1 & ? & ? & ? & (-> & -> & Hb1)%filter_state_Ok & H & ->).
  apply bind_Ok_inv in H
    as (f1 & ? & ? & ? & (-> & -> & _)%guarded_call_Ok & H & ->).
  apply bind_Ok_inv in H
    as (b2 & ? & ? & ? & (-> & -> & Hb2)%filter_state_Ok & H & ->).
  apply bind_Ok_inv in H
    as (f2 & ? & ? & ? & (-> & -> & _)%guarded_call_Ok & H & ->).
  apply bind_Ok_inv in H
    as (b3 & ? & ? & ? & (-> & -> & Hb3)%filter_state_Ok & H & ->).
  apply bind_Ok_inv in H
    as (f3 & ? & ? & ? & (-> & -> & _)%guarded_call_Ok & H & ->).
  apply bind_Ok_inv in H
    as (b4 & ? & ? & ? & (-> & -> & Hb4)%filter_state_Ok & H & ->).
  apply bind_Ok_inv in H as (cb & ? & ? & ? & [= <- <- <-] & H & ->).
  rewrite (flag_Some _ _ _ Hb1), (flag_Some _ _ _ Hb2),
    (flag_Some _ _ _ Hb3), (flag_Some _ _ _ Hb4). simpl.
  destruct (b4 && truthy_str (current_background s)).
  - apply bind_Ok_inv in H as (img & ? & ? & ? & [= <- <- <-] & H & ->).
    by injection H as _ _ <-.
  - by injection H as _ _ <-.
Qed.

Lemma for_faces_Ok faces : ∀ frame s f' s' t,
  for_faces env faces frame s = (Ok f', s', t) →
  t = flat_map (face_calls env s) faces.
Proof.
  induction faces as [|face rest IH]; intros frame s f' s' t; simpl.
  - by intros [= <- <- <-].
  - intros (f1 & s1 & t1 & t2 & H1 & H2 & ->)%bind_Ok_inv.
    pose proof (read_only_face_body env frame face s) as Hs.
    unfold final in Hs. rewrite H1 in Hs. simpl in Hs. subst s1.
    by rewrite (face_body_Ok _ _ _ _ _ _ H1), (IH _ _ _ _ _ H2).
Qed.

(** The loop over [l1 ++ l2] is the loop over [l1] followed by the
    loop over [l2] on the frame the first one left. *)
Lemma for_faces_app l1 l2 frame s :
  for_faces env (l1 ++ l2) frame s =
  bind (for_faces env l1 frame) (for_faces env l2) s.
Proof.
  revert frame s. induction l1 as [|face rest IH]; intros frame s; simpl.
  - unfold bind, ret. by destruct (for_faces env l2 frame s) as [[r s2] t2].
  - unfold bind.
    destruct (face_body env frame face s) as [[[f1|e] s1] t1]; [|done].
    rewrite IH. unfold bind.
    destruct (for_faces env rest f1 s1) as [[[f2|e] s2] t2]; [|done].
    destruct (for_faces env l2 f2 s2) as [[r s3] t3].
    by rewrite app_assoc.
Qed.

(** [apply_face_filter] once the two calls before the loop have
    returned: the loop runs over the detector's faces ([None] and the
    empty list give no iteration). *)
Lemma apply_face_filter_eq frame s frame_rgb results :
  cv2_cvtColor env frame = Ok frame_rgb →
  FaceMesh_process env (face_mesh_max_num_faces s) frame_rgb = Ok results →
  apply_face_filter env frame s =
    (outcome (for_faces env (default [] results) frame s), s,
     [Call_cvtColor frame; Call_process frame_rgb]
       ++ calls (for_faces env (default [] results) frame s)).
Proof.
  intros Hc Hp. unfold apply_face_filter, bind, extern, gets.
  rewrite Hc. simpl. rewrite Hp. simpl.
  pose proof (read_only_for_faces env (default [] results) frame s) as Hs.
  unfold final, outcome, calls in *.
  destruct results as [[|face rest]|]; simpl in *; try done.
  by destruct (bind _ _ s) as [[r s2] t2]; simpl in *; subst.
Qed.

Lemma apply_face_filter_Ok frame s f' s' t :
  apply_face_filter env frame s = (Ok f', s', t) →
  ∃ frame_rgb results,
    cv2_cvtColor env frame = Ok frame_rgb ∧
    FaceMesh_process env (face_mesh_max_num_faces s) frame_rgb = Ok results ∧
    s' = s ∧
    for_faces env (default [] results) frame s
      = (Ok f', s, flat_map (face_calls env s) (default [] results)) ∧
    t = [Call_cvtColor frame; Call_process frame_rgb]
          ++ flat_map (face_calls env s) (default [] results).
Proof.
  intros H.
  destruct (cv2_cvtColor env frame) as [rgb|e] eqn:Hc; cycle 1.
  { unfold apply_face_filter, bind, extern in H. by rewrite Hc in H. }
  destruct (FaceMesh_process env (face_mesh_max_num_faces s) rgb)
    as [results|e] eqn:Hp; cycle 1.
  { unfold apply_face_filter, bind, extern, gets in H.
    rewrite Hc in H. simpl in H. by rewrite Hp in H. }
  rewrite (apply_face_filter_eq _ _ _ _ Hc Hp) in H.
  destruct (for_faces env (default [] results) frame s) as [[r s2] t2] eqn:Hf.
  unfold outcome, calls in H. simpl in H. injection H as -> <- <-.
  pose proof (read_only_for_faces env (default [] results) frame s) as Hs.
  unfold final in Hs. rewrite Hf in Hs. simpl in Hs. subst s2.
  pose proof (for_faces_Ok _ _ _ _ _ _ Hf) as ->.
  by exists rgb, results.
Qed.

End LoopFacts.

(** ** What the event loop preserves *)

Lemma keeps_config_bind {A B} (m : M A) (f : A → M B) :
  keeps_config m → (∀ a, keeps_config (f a)) → keeps_config (bind m f).
Proof.
  intros Hm Hf s. specialize (Hm s). unfold final, bind in *.
  destruct (m s) as [[[a|e] s1] t1]; simpl in *; [|done].
  specialize (Hf a s1). unfold final in Hf.
  destruct (f a s1) as [[r s2] t2]. simpl in *. congruence.
Qed.

Lemma read_only_keeps_config {A} (m : M A) : read_only m → keeps_config m.
Proof. intros H s. by rewrite H. Qed.

Lemma keeps_config_update_frame env reading : keeps_config (update_frame env reading).
Proof.
  destruct reading as [frame|]; simpl; [|done].
  apply keeps_config_bind; [done|intros f1].
  apply keeps_config_bind; [done|intros d].
  apply keeps_config_bind.
  { apply read_only_keeps_config. destruct (any_values d);
      [apply read_only_apply_face_filter | apply read_only_ret]. }
  intros f2. apply keeps_config_bind; [done|intros rgb].
  by destruct (QImage_RGB888 rgb).
Qed.

Lemma keeps_config_capture_image env : keeps_config (capture_image env).
Proof.
  apply read_only_keeps_config. unfold capture_image.
  apply read_only_bind; [done|intros [f|]]; [|done]. read_only_tac.
Qed.

Lemma invariant_config s s' : config s' = config s → invariant s → invariant s'.
Proof.
  unfold config. intros [= H1 H2 H3 H4] [I1 I2 I3 I4].
  split; unfold flag; rewrite ?H1, ?H2, ?H3, ?H4; done.
Qed.

Lemma invariant_init : invariant CameraApp_init.
Proof.
  split; try done.
  intros k Hk. unfold filter_names in Hk.
  repeat (apply elem_of_cons in Hk as [->|Hk]); try by eexists.
  by apply elem_of_nil in Hk.
Qed.

Lemma toggle_filter_eq name s :
  toggle_filter name s =
    match filter_states s !! name with
    | Some v => (Ok tt, set_filter_states (<[name := negb v]> (filter_states s)) s, [])
    | None => (Raise (KeyError name), s, [])
    end.
Proof.
  unfold toggle_filter, bind, gets, getitem, modify.
  by destruct (filter_states s !! name).
Qed.

Lemma invariant_toggle_filter name s :
  name ∈ filter_names → name ≠ "Background" →
  invariant s → invariant (final (toggle_filter name s)).
Proof.
  intros Hn Hne [I1 I2 I3 I4]. rewrite toggle_filter_eq.
  destruct (I3 name Hn) as [v Hv]. rewrite Hv. unfold final. simpl.
  split; simpl; try done.
  - intros k Hk. destruct (decide (name = k)) as [->|Hnk].
    + rewrite lookup_insert_eq. by eexists.
    + rewrite lookup_insert_ne by done. auto.
  - unfold flag in *. simpl. by rewrite lookup_insert_ne.
Qed.

Lemma toggle_background_eq checked s :
  background_images s = background_images CameraApp_init →
  toggle_background checked s =
    (Ok tt,
     set_filter_states (<["Background" := checked]> (filter_states s))
       (set_current_background (if checked then Some "space.jpg" else None) s),
     []).
Proof.
  intros Hb. unfold toggle_background, bind, gets, modify.
  destruct checked; [|done]. simpl. by rewrite Hb.
Qed.

Lemma invariant_toggle_background checked s :
  invariant s → invariant (final (toggle_background checked s)).
Proof.
  intros [I1 I2 I3 I4]. rewrite toggle_background_eq by done.
  unfold final. simpl. split; simpl; try done.
  - intros k Hk. destruct (decide ("Background" = k)) as [<-|Hnk].
    + rewrite lookup_insert_eq. by eexists.
    + rewrite lookup_insert_ne by done. auto.
  - unfold flag. simpl. rewrite lookup_insert_eq. by destruct checked.
Qed.

Lemma invariant_handle env s ev : invariant s → invariant (handle env s ev).
Proof.
  intros I. unfold handle. destruct ev; simpl.
  - apply invariant_toggle_filter; [set_solver|done|done].
  - apply invariant_toggle_filter; [set_solver|done|done].
  - apply invariant_toggle_filter; [set_solver|done|done].
  - by apply invariant_toggle_background.
  - eapply invariant_config; [apply keeps_config_update_frame|done].
  - eapply invariant_config; [apply keeps_config_capture_image|done].
  - eapply invariant_config; [|done]. done.
Qed.

Lemma invariant_foldl env evs : ∀ s, invariant s → invariant (foldl (handle env) s evs).
Proof.
  induction evs as [|ev evs IH]; intros s I; simpl; [done|].
  by apply IH, invariant_handle.
Qed.

(** Every state the event loop can reach from [__init__]. *)
Lemma invariant_run env evs : invariant (run env evs).
Proof. apply invariant_foldl, invariant_init. Qed.

(** ** The log when a collaborator raises *)

Section Prefix.
Variable env : Env.

(** Whatever the outcome, the calls of one pass of the loop body are
    an initial segment of [face_calls]. *)
Lemma face_body_calls_prefix frame face s :
  calls (face_body env frame face s) `prefix_of` face_calls env s face.
Proof.
  unfold face_body, face_calls, background_active, flag, calls,
    filter_state, bind, gets, getitem, extern, ret, raise.
  destruct (filter_states s !! "Blush") as [[]|]; simpl;
    [destruct (add_blush env frame (landmark face)); simpl| |];
    try (by eexists);
    (destruct (filter_states s !! "Sunglasses") as [[]|]; simpl;
     [destruct (overlay_sunglasses env _ (landmark face)); simpl| |];
     try (by eexists));
    (destruct (filter_states s !! "RabbitEars") as [[]|]; simpl;
     [destruct (overlay_rabbit_ears env _ (landmark face)); simpl| |];
     try (by eexists));
    (destruct (filter_states s !! "Background") as [[]|]; simpl;
     try (by eexists));
    (destruct (truthy_str (current_background s)); simpl;
     try (by eexists));
    destruct (apply_background_change env _ _ _); by eexists.
Qed.

Lemma for_faces_calls_prefix faces : ∀ frame s,
  calls (for_faces env faces frame s) `prefix_of` flat_map (face_calls env s) faces.
Proof.
  induction faces as [|face rest IH]; intros frame s; simpl; [done|].
  pose proof (face_body_calls_prefix frame face s) as Hp.
  pose proof (read_only_face_body env frame face s) as Hs.
  unfold bind, calls, final in *.
  destruct (face_body env frame face s) as [[[f1|e] s1] t1] eqn:Hb;
    simpl in *; subst.
  - pose proof (face_body_Ok _ _ _ _ _ _ _ Hb) as ->.
    specialize (IH f1 s).
    destruct (for_faces env rest f1 s) as [[r s2] t2]. simpl in *.
    by apply prefix_app.
  - by apply prefix_app_r.
Qed.

End Prefix.

(** * Properties of the slots *)

(** ** No face in the frame *)

(** C1. When the detector reports no face for a tick (its
    [multi_face_landmarks] is [None] or an empty list),
    [apply_face_filter] returns the very frame it was given: no
    compositing function is called, and [self] is as before. *)
Theorem apply_face_filter_no_faces env s frame frame_rgb results :
  cv2_cvtColor env frame = Ok frame_rgb →
  FaceMesh_process env (face_mesh_max_num_faces s) frame_rgb = Ok results →
  results = None ∨ results = Some [] →
  apply_face_filter env frame s
    = (Ok frame, s, [Call_cvtColor frame; Call_process frame_rgb]).
Proof.
  intros Hc Hp Hr.
  rewrite (apply_face_filter_eq _ _ _ _ _ Hc Hp).
  by destruct Hr as [-> | ->].
Qed.

Lemma apply_face_filter_no_faces_witness :
  let env := World.make ∅ World.no_face in
  let s := run env [ToggleBlush; ToggleBackground true] in
  apply_face_filter env World.frame6 s
    = (Ok World.frame6, s,
       [Call_cvtColor World.frame6;
        Call_process (NdArray [1; 2; 3] [30; 20; 10; 60; 50; 40]%Z)]).
Proof.
  intros env s.
  apply (apply_face_filter_no_faces env s World.frame6 _ None);
    [reflexivity | reflexivity | left; reflexivity].
Defined.

(** ** No state kept by compositing *)

(** C7. [apply_face_filter] leaves every attribute of [self] as it
    found it, whatever its outcome: the filter flags, the background
    selection and the stored frame are untouched, so nothing of the frame
    is kept on the application object.  Across the event loop the flags
    change only in the toggle slots: an event that is not a toggle
    leaves [filter_states] as it was. *)
Theorem apply_face_filter_stateless env s frame ev :
  final (apply_face_filter env frame s) = s ∧
  (is_toggle ev = true ∨ filter_states (handle env s ev) = filter_states s).
Proof.
  split; [apply read_only_apply_face_filter|].
  destruct ev as [| | | checked|reading| |]; simpl; try (by left);
    right; unfold handle; simpl.
  - pose proof (keeps_config_update_frame env reading s) as H.
    unfold config in H. by injection H.
  - pose proof (keeps_config_capture_image env s) as H.
    unfold config in H. by injection H.
  - done.
Qed.

(** ** Camera read failure *)

(** C8. When the camera read fails, [update_frame] calls neither the
    detector nor any compositing function (it calls no collaborator at
    all), empties the scene and ends normally; the stored
    [current_frame], the flags and the background selection are as
    before. *)
Theorem update_frame_read_failed env s :
  let r := update_frame env None s in
  outcome r = Ok tt ∧
  calls r = [] ∧
  scene (final r) = [] ∧
  current_frame (final r) = current_frame s ∧
  config (final r) = config s ∧
  timer_active (final r) = timer_active s.
Proof. done. Qed.

(** ** The Background toggle *)

(** C9. In every state the event loop can reach: switching Background
    on selects [background_images[1]], which is 'space.jpg', and sets the
    flag; switching it off clears the selection and the flag;
    'background.jpg' is never the selection; and the Background flag is
    true exactly when a background is selected. *)
Theorem toggle_background_selects_space env evs :
  let s := run env evs in
  let on := final (toggle_background true s) in
  let off := final (toggle_background false s) in
  (current_background on = Some "space.jpg" ∧
   filter_states on !! "Background" = Some true) ∧
  (current_background off = None ∧
   filter_states off !! "Background" = Some false) ∧
  current_background s ≠ Some "background.jpg" ∧
  (∃ b, filter_states s !! "Background" = Some b ∧
        b = bool_decide (is_Some (current_background s))).
Proof.
  intros s on off. pose proof (invariant_run env evs) as [I1 I2 I3 I4].
  fold s in I1, I2, I3, I4. subst on off.
  rewrite !toggle_background_eq by done. unfold final. simpl.
  rewrite !lookup_insert_eq. repeat split.
  - rewrite I4. by destruct (flag s "Background").
  - destruct (I3 "Background") as [b Hb]; [set_solver|].
    exists b. split; [done|]. rewrite I4. unfold flag. rewrite Hb.
    by destruct b.
Qed.

(** ** One tick *)

(** [any(self.filter_states.values())] is true exactly when some flag is. *)
Lemma any_values_true (d : gmap string bool) :
  any_values d = true ↔ ∃ k, d !! k = Some true.
Proof.
  unfold any_values. rewrite existsb_exists. split.
  - intros (b & Hin & Hb). unfold id in Hb. subst b.
    apply list_elem_of_In, list_elem_of_fmap in Hin as ([k b] & Hb & Hin).
    simpl in Hb. subst b. exists k. by apply elem_of_map_to_list.
  - intros (k & Hk). exists true. split; [|done].
    apply list_elem_of_In, list_elem_of_fmap. exists (k, true).
    split; [done|]. by apply elem_of_map_to_list.
Qed.

Lemma filter_flat_map {A B} (P : B → bool) (g : A → list B) (l : list A) :
  List.filter P (flat_map g l) = flat_map (λ x, List.filter P (g x)) l.
Proof.
  induction l as [|x l IH]; simpl; [done|]. by rewrite List.filter_app, IH.
Qed.

Lemma flat_map_guarded {A B} (b : bool) (c : A → B) (l : list A) :
  flat_map (λ x, if b then [c x] else []) l = if b then c <$> l else [].
Proof.
  destruct b; induction l as [|x l IH]; simpl; by rewrite ?IH.
Qed.

Section FaceCalls.
Variables (env : Env) (s : CameraApp).
Implicit Types faces : list NormalizedLandmarkList.

(* one face at a time, by cases on the four conditions of the body *)
Local Ltac by_flags faces :=
  induction faces as [|f l IH]; simpl; [done|]; rewrite <- ?IH, ?IH;
  unfold face_calls;
  by destruct (flag s "Blush"), (flag s "Sunglasses"), (flag s "RabbitEars"),
    (background_active s).

Lemma filter_add_blush faces :
  List.filter is_add_blush (flat_map (face_calls env s) faces)
  = if flag s "Blush" then (λ f, Call_add_blush (landmark f)) <$> faces else [].
Proof.
  rewrite filter_flat_map, <- flat_map_guarded.
  by_flags faces.
Qed.

Lemma filter_overlay_sunglasses faces :
  List.filter is_overlay_sunglasses (flat_map (face_calls env s) faces)
  = if flag s "Sunglasses"
    then (λ f, Call_overlay_sunglasses (landmark f)) <$> faces else [].
Proof.
  rewrite filter_flat_map, <- flat_map_guarded.
  by_flags faces.
Qed.

Lemma filter_overlay_rabbit_ears faces :
  List.filter is_overlay_rabbit_ears (flat_map (face_calls env s) faces)
  = if flag s "RabbitEars"
    then (λ f, Call_overlay_rabbit_ears (landmark f)) <$> faces else [].
Proof.
  rewrite filter_flat_map, <- flat_map_guarded.
  by_flags faces.
Qed.

Lemma filter_apply_background_change faces :
  List.filter is_apply_background_change (flat_map (face_calls env s) faces)
  = if background_active s
    then (λ f, Call_apply_background_change (landmark f)
                 (cv2_imread env (default "" (current_background s)))) <$> faces
    else [].
Proof.
  rewrite filter_flat_map, <- flat_map_guarded.
  by_flags faces.
Qed.

Lemma filter_imread faces :
  List.filter is_imread (flat_map (face_calls env s) faces)
  = if background_active s
    then (λ _, Call_imread (default "" (current_background s))) <$> faces
    else [].
Proof.
  rewrite filter_flat_map, <- flat_map_guarded.
  by_flags faces.
Qed.

Lemma filter_process faces :
  List.filter is_process (flat_map (face_calls env s) faces) = [].
Proof.
  rewrite filter_flat_map.
  by_flags faces.
Qed.

End FaceCalls.

(** In a reachable state the Background branch is taken exactly when
    the flag is set, and the file it reads is 'space.jpg'. *)
Lemma invariant_background_active s :
  invariant s →
  background_active s = flag s "Background" ∧
  (flag s "Background" = true → current_background s = Some "space.jpg").
Proof.
  intros [_ _ _ I4]. unfold background_active. rewrite I4.
  by destruct (flag s "Background").
Qed.

Lemma update_frame_Ok env frame s s' t :
  update_frame env (Some frame) s = (Ok tt, s', t) →
  ∃ flipped shown tmid rgb_image pixmap,
    cv2_flip env frame = Ok flipped ∧
    (if any_values (filter_states s)
     then apply_face_filter env flipped s = (Ok shown, s, tmid)
     else shown = flipped ∧ tmid = []) ∧
    cv2_cvtColor env shown = Ok rgb_image ∧
    QImage_RGB888 rgb_image = Some pixmap ∧
    scene s' = [pixmap] ∧ current_frame s' = Some shown ∧
    config s' = config s ∧
    t = [Call_flip] ++ tmid ++ [Call_cvtColor shown].
Proof.
  unfold update_frame. intros H.
  apply bind_Ok_inv in H as (flipped & ? & ? & ? & H1 & H & ->).
  unfold extern in H1. injection H1 as H1 <- <-.
  apply bind_Ok_inv in H as (d & ? & ? & ? & [= <- <- <-] & H & ->).
  apply bind_Ok_inv in H as (shown & s2 & tmid & ? & H2 & H & ->).
  apply bind_Ok_inv in H as (rgb & ? & ? & ? & H3 & H & ->).
  unfold extern in H3. injection H3 as H3 <- <-.
  destruct (QImage_RGB888 rgb) as [pixmap|] eqn:Hq; [|done].
  assert (s2 = s ∧ if any_values (filter_states s)
                   then apply_face_filter env flipped s = (Ok shown, s, tmid)
                   else shown = flipped ∧ tmid = []) as [-> Hmid].
  { destruct (any_values (filter_states s)).
    - pose proof (read_only_apply_face_filter env flipped s) as Hs.
      unfold final in Hs. rewrite H2 in Hs. simpl in Hs. by subst s2.
    - by injection H2 as <- <- <-. }
  unfold bind, modify, gets in H. simpl in H. injection H as <- <-.
  exists flipped, shown, tmid, rgb, pixmap. by rewrite app_nil_r.
Qed.

(** C3. A tick that reads a frame and completes.  If some filter flag
    is set, the detector is called exactly once, on the colour-converted
    mirrored frame, and each compositing function whose flag is set is
    called exactly once for each detected face, in the detector's order,
    the others not at all.  If no flag is set, neither the detector nor
    any compositing function is called, and what is displayed and stored
    is the mirrored frame as acquired. *)
Theorem update_frame_detects_once_composites_per_face env evs frame s' t :
  let s := run env evs in
  update_frame env (Some frame) s = (Ok tt, s', t) →
  ∃ flipped, cv2_flip env frame = Ok flipped ∧
  if any_values (filter_states s) then
    ∃ frame_rgb results,
      cv2_cvtColor env flipped = Ok frame_rgb ∧
      FaceMesh_process env 10 frame_rgb = Ok results ∧
      List.filter is_process t = [Call_process frame_rgb] ∧
      let faces := default [] results in
      List.filter is_add_blush t
        = (if flag s "Blush"
           then (λ f, Call_add_blush (landmark f)) <$> faces else []) ∧
      List.filter is_overlay_sunglasses t
        = (if flag s "Sunglasses"
           then (λ f, Call_overlay_sunglasses (landmark f)) <$> faces else []) ∧
      List.filter is_overlay_rabbit_ears t
        = (if flag s "RabbitEars"
           then (λ f, Call_overlay_rabbit_ears (landmark f)) <$> faces else []) ∧
      List.filter is_apply_background_change t
        = (if flag s "Background"
           then (λ f, Call_apply_background_change (landmark f)
                        (cv2_imread env "space.jpg")) <$> faces
           else [])
  else
    List.filter is_process t = [] ∧
    List.filter is_compositing t = [] ∧
    ∃ rgb_image pixmap,
      cv2_cvtColor env flipped = Ok rgb_image ∧
      QImage_RGB888 rgb_image = Some pixmap ∧
      scene s' = [pixmap] ∧ current_frame s' = Some flipped.
Proof.
  intros s H. pose proof (invariant_run env evs) as I. fold s in I.
  apply update_frame_Ok in H
    as (flipped & shown & tmid & rgb & pixmap & Hflip & Hmid & Hcvt & Hq
        & Hscene & Hcur & _ & ->).
  exists flipped. split; [done|].
  destruct (any_values (filter_states s)).
  - apply apply_face_filter_Ok in Hmid
      as (frame_rgb & results & Hc & Hp & _ & _ & ->).
    rewrite (inv_max_num_faces _ I) in Hp.
    exists frame_rgb, results. split; [done|]. split; [done|].
    destruct (invariant_background_active s I) as [Hact Hpath].
    simpl. rewrite !List.filter_app. simpl.
    rewrite filter_process, filter_add_blush, filter_overlay_sunglasses,
      filter_overlay_rabbit_ears, filter_apply_background_change, Hact.
    rewrite !app_nil_r. repeat split; try done.
    destruct (flag s "Background"); [|done]. by rewrite Hpath.
  - destruct Hmid as [-> ->]. simpl. repeat split; try done.
    by exists rgb, pixmap.
Qed.

Lemma update_frame_detects_once_composites_per_face_witness :
  let env := World.make World.with_space World.two_faces in
  let evs := [ToggleSunglasses; ToggleBackground true] in
  ∃ s' t,
    update_frame env (Some World.frame6) (run env evs) = (Ok tt, s', t) ∧
    ∃ flipped, cv2_flip env World.frame6 = Ok flipped ∧
    ∃ frame_rgb results,
      cv2_cvtColor env flipped = Ok frame_rgb ∧
      FaceMesh_process env 10 frame_rgb = Ok results ∧
      List.filter is_process t = [Call_process frame_rgb] ∧
      List.filter is_overlay_sunglasses t
        = (λ f, Call_overlay_sunglasses (landmark f)) <$> default [] results.
Proof.
  intros env evs.
  destruct (update_frame env (Some World.frame6) (run env evs))
    as [[r s'] t] eqn:E.
  assert (r = Ok tt) as -> by (by vm_compute in E; injection E as <- _ _).
  exists s', t. split; [reflexivity|].
  destruct (update_frame_detects_once_composites_per_face
              env evs World.frame6 s' t E)
    as (flipped & Hf & H).
  change (any_values (filter_states (run env evs))) with true in H.
  destruct H as (frame_rgb & results & Hc & Hp & H1 & _ & H2 & _).
  change (flag (run env evs) "Sunglasses") with true in H2.
  exists flipped. split; [exact Hf|].
  exists frame_rgb, results. auto.
Defined.

(** ** The log of a tick, whatever its outcome *)

Lemma filter_prefix {A} (P : A → bool) (l1 l2 : list A) :
  l1 `prefix_of` l2 → List.filter P l1 `prefix_of` List.filter P l2.
Proof. intros [k ->]. rewrite List.filter_app. by eexists. Qed.

Lemma apply_face_filter_per_face_calls env frame s P :
  per_face_only P →
  ∃ faces, detected env s faces ∧
    List.filter P (calls (apply_face_filter env frame s))
      `prefix_of` List.filter P (flat_map (face_calls env s) faces).
Proof.
  intros (_ & Hc & Hp).
  destruct (cv2_cvtColor env frame) as [rgb|e] eqn:Ec; cycle 1.
  { exists []. split; [by left|].
    unfold apply_face_filter, bind, extern, calls. rewrite Ec. simpl.
    by rewrite Hc. }
  destruct (FaceMesh_process env (face_mesh_max_num_faces s) rgb)
    as [results|e] eqn:Ep; cycle 1.
  { exists []. split; [by left|].
    unfold apply_face_filter, bind, extern, gets, calls.
    rewrite Ec. simpl. rewrite Ep. simpl. by rewrite Hc, Hp. }
  exists (default [] results). split.
  { destruct results as [faces|]; [right; by exists rgb | by left]. }
  rewrite (apply_face_filter_eq _ _ _ _ _ Ec Ep). unfold calls at 1. simpl.
  rewrite Hc, Hp. apply filter_prefix, for_faces_calls_prefix.
Qed.

Lemma update_frame_per_face_calls env reading s P :
  per_face_only P →
  ∃ faces, detected env s faces ∧
    List.filter P (calls (update_frame env reading s))
      `prefix_of` List.filter P (flat_map (face_calls env s) faces).
Proof.
  intros HP. pose proof HP as (Hf & Hc & Hp).
  destruct reading as [frame|]; [|exists []; split; [by left|done]].
  unfold update_frame, bind, extern, gets, calls. simpl.
  destruct (cv2_flip env frame) as [flipped|e];
    [|exists []; split; [by left|simpl; by rewrite Hf]].
  destruct (any_values (filter_states s)).
  - destruct (apply_face_filter_per_face_calls env flipped s P HP)
      as (faces & Hd & Hpre).
    exists faces. split; [done|]. unfold calls in Hpre.
    destruct (apply_face_filter env flipped s) as [[[shown|e] s2] t2];
      simpl in *; rewrite ?Hf; [|done].
    destruct (cv2_cvtColor env shown) as [rgb|e]; simpl.
    + destruct (QImage_RGB888 rgb); simpl;
        by rewrite Hf, !List.filter_app; simpl; rewrite Hc, !app_nil_r.
    + by rewrite Hf, !List.filter_app; simpl; rewrite Hc, !app_nil_r.
  - exists []. split; [by left|]. simpl.
    destruct (cv2_cvtColor env flipped) as [rgb|e]; simpl.
    + destruct (QImage_RGB888 rgb); simpl; by rewrite Hf, Hc.
    + by rewrite Hf, Hc.
Qed.

(** ** The cap on faces *)

Lemma World_respects_max_num_faces files detect :
  respects_max_num_faces (World.make files detect).
Proof.
  intros n image faces. simpl. unfold World.process.
  destruct (shape image !! 2) as [[|[|[|[|ch]]]]|]; try done.
  destruct (detect image) as [l|]; [|done]. simpl. intros [= <-].
  rewrite length_take. lia.
Qed.

(** C10. The detector is created with [max_num_faces=10] and no slot
    changes that; with a detector that honours its cap, the list the loop
    of [apply_face_filter] runs over has at most 10 faces in any reachable
    state, and a tick therefore calls each compositing function, and
    [imread], at most 10 times. *)
Theorem at_most_ten_faces_per_tick env evs reading :
  respects_max_num_faces env →
  let s := run env evs in
  let t := calls (update_frame env reading s) in
  face_mesh_max_num_faces s = 10 ∧
  (∀ image results,
     FaceMesh_process env (face_mesh_max_num_faces s) image = Ok results →
     length (default [] results) ≤ 10) ∧
  length (List.filter is_add_blush t) ≤ 10 ∧
  length (List.filter is_overlay_sunglasses t) ≤ 10 ∧
  length (List.filter is_overlay_rabbit_ears t) ≤ 10 ∧
  length (List.filter is_apply_background_change t) ≤ 10 ∧
  length (List.filter is_imread t) ≤ 10.
Proof.
  intros Hcap s t. pose proof (invariant_run env evs) as I. fold s in I.
  assert (∀ faces, detected env s faces → length faces ≤ 10) as Hten.
  { intros faces [->|[image Hp]]; [simpl; lia|].
    rewrite <- (inv_max_num_faces _ I). by eapply Hcap. }
  assert (∀ P, per_face_only P →
            (∀ faces, length (List.filter P (flat_map (face_calls env s) faces))
                      ≤ length faces) →
            length (List.filter P t) ≤ 10) as Hcount.
  { intros P HP Hlen.
    destruct (update_frame_per_face_calls env reading s P HP)
      as (faces & Hd & Hpre).
    apply prefix_length in Hpre. specialize (Hlen faces).
    specialize (Hten faces Hd). subst t. lia. }
  split; [apply I|]. split.
  { intros image [faces|] Hp; simpl; [|lia]. apply Hten. right. by exists image. }
  repeat split; apply Hcount; try done; intros faces.
  - rewrite filter_add_blush. destruct (flag s "Blush"); simpl;
      rewrite ?length_fmap; lia.
  - rewrite filter_overlay_sunglasses. destruct (flag s "Sunglasses"); simpl;
      rewrite ?length_fmap; lia.
  - rewrite filter_overlay_rabbit_ears. destruct (flag s "RabbitEars"); simpl;
      rewrite ?length_fmap; lia.
  - rewrite filter_apply_background_change. destruct (background_active s); simpl;
      rewrite ?length_fmap; lia.
  - rewrite filter_imread. destruct (background_active s); simpl;
      rewrite ?length_fmap; lia.
Qed.

Lemma at_most_ten_faces_per_tick_witness :
  let env := World.make World.with_space World.twelve_faces in
  let s := run env [ToggleBlush; ToggleBackground true] in
  let t := calls (update_frame env (Some World.frame6) s) in
  face_mesh_max_num_faces s = 10 ∧
  (∀ image results,
     FaceMesh_process env (face_mesh_max_num_faces s) image = Ok results →
     length (default [] results) ≤ 10) ∧
  length (List.filter is_add_blush t) ≤ 10 ∧
  length (List.filter is_overlay_sunglasses t) ≤ 10 ∧
  length (List.filter is_overlay_rabbit_ears t) ≤ 10 ∧
  length (List.filter is_apply_background_change t) ≤ 10 ∧
  length (List.filter is_imread t) ≤ 10.
Proof.
  intros env.
  apply (at_most_ten_faces_per_tick env [ToggleBlush; ToggleBackground true]
           (Some World.frame6)).
  apply World_respects_max_num_faces.
Defined.

(** ** The returned frame is the log replayed *)

Lemma replay_app env l1 l2 frame :
  replay env (l1 ++ l2) frame
  = match replay env l1 frame with
    | Ok g => replay env l2 g
    | Raise e => Raise e
    end.
Proof.
  revert frame. induction l1 as [|c l1 IH]; intros frame; simpl; [done|].
  by destruct (replay_call env c frame).
Qed.

Lemma invariant_keys_present s : invariant s → keys_present s.
Proof. intros I k Hk. by apply (inv_keys _ I). Qed.

Section Replay.
Variable env : Env.

(** With the four flags in the dict, the outcome of one pass of the
    loop body is its calls applied in order to the frame it was given,
    whether the pass completes or a call raises. *)
Lemma face_body_outcome frame face s :
  keys_present s →
  outcome (face_body env frame face s) = replay env (face_calls env s face) frame.
Proof.
  intros K.
  destruct (K "Blush") as [b1 K1]; [repeat constructor|].
  destruct (K "Sunglasses") as [b2 K2]; [repeat constructor|].
  destruct (K "RabbitEars") as [b3 K3]; [repeat constructor|].
  destruct (K "Background") as [b4 K4]; [repeat constructor|].
  unfold face_calls, background_active.
  rewrite (flag_Some _ _ _ K1), (flag_Some _ _ _ K2), (flag_Some _ _ _ K3),
    (flag_Some _ _ _ K4).
  unfold face_body, outcome, filter_state, bind, gets, getitem, extern, ret.
  rewrite K1. simpl. rewrite !replay_app.
  destruct b1; simpl;
    [destruct (add_blush env frame (landmark face)); simpl; [|done]|];
    rewrite K2; simpl;
    (destruct b2; simpl;
     [destruct (overlay_sunglasses env _ (landmark face)); simpl; [|done]|]);
    rewrite K3; simpl;
    (destruct b3; simpl;
     [destruct (overlay_rabbit_ears env _ (landmark face)); simpl; [|done]|]);
    rewrite K4; simpl;
    (destruct (b4 && truthy_str (current_background s)); simpl; [|done]);
    by destruct (apply_background_change env _ _ _).
Qed.

Lemma for_faces_outcome faces : ∀ frame s,
  keys_present s →
  outcome (for_faces env faces frame s)
  = replay env (flat_map (face_calls env s) faces) frame.
Proof.
  induction faces as [|face rest IH]; intros frame s K; simpl; [done|].
  rewrite replay_app, <- (face_body_outcome frame face s K).
  pose proof (read_only_face_body env frame face s) as Hs.
  unfold outcome, final, bind in *.
  destruct (face_body env frame face s) as [[[f1|e] s1] t1]; simpl in *;
    [|done]. subst s1.
  specialize (IH f1 s K).
  by destruct (for_faces env rest f1 s) as [[r s2] t2].
Qed.

(** A pass that completes has found the four flags. *)
Lemma face_body_Ok_keys frame face s f' s' t :
  face_body env frame face s = (Ok f', s', t) → keys_present s.
Proof.
  unfold face_body. intros H.
  apply bind_Ok_inv in H
    as (b1 & ? & ? & ? & (-> & -> & Hb1)%filter_state_Ok & H & ->).
  apply bind_Ok_inv in H
    as (f1 & ? & ? & ? & (-> & -> & _)%guarded_call_Ok & H & ->).
  apply bind_Ok_inv in H
    as (b2 & ? & ? & ? & (-> & -> & Hb2)%filter_state_Ok & H & ->).
  apply bind_Ok_inv in H
    as (f2 & ? & ? & ? & (-> & -> & _)%guarded_call_Ok & H & ->).
  apply bind_Ok_inv in H
    as (b3 & ? & ? & ? & (-> & -> & Hb3)%filter_state_Ok & H & ->).
  apply bind_Ok_inv in H
    as (f3 & ? & ? & ? & (-> & -> & _)%guarded_call_Ok & H & ->).
  apply bind_Ok_inv in H
    as (b4 & ? & ? & ? & (-> & -> & Hb4)%filter_state_Ok & H & ->).
  intros k Hk. unfold filter_names in Hk.
  repeat (apply elem_of_cons in Hk as [->|Hk]); try by eexists.
  by apply elem_of_nil in Hk.
Qed.

Lemma for_faces_Ok_replay faces frame s f' s' t :
  for_faces env faces frame s = (Ok f', s', t) →
  replay env (flat_map (face_calls env s) faces) frame = Ok f'.
Proof.
  intros H. destruct faces as [|face rest].
  - simpl in *. by injection H as <- _ _.
  - assert (keys_present s) as K.
    { simpl in H.
      apply bind_Ok_inv in H as (f1 & s1 & t1 & t2 & H1 & _ & _).
      by eapply face_body_Ok_keys. }
    rewrite <- (for_faces_outcome _ _ _ K). unfold outcome. by rewrite H.
Qed.

(** The outcome of [apply_face_filter], whatever it is: the exception
    of [cvtColor] or of the detector if one of them raises, and the
    replay of the per-face calls on the frame otherwise. *)
Lemma apply_face_filter_outcome frame s :
  keys_present s →
  outcome (apply_face_filter env frame s)
  = match cv2_cvtColor env frame with
    | Raise e => Raise e
    | Ok frame_rgb =>
        match FaceMesh_process env (face_mesh_max_num_faces s) frame_rgb with
        | Raise e => Raise e
        | Ok results =>
            replay env (flat_map (face_calls env s) (default [] results)) frame
        end
    end.
Proof.
  intros K.
  destruct (cv2_cvtColor env frame) as [rgb|e] eqn:Hc; cycle 1.
  { unfold apply_face_filter, outcome, bind, extern. by rewrite Hc. }
  destruct (FaceMesh_process env (face_mesh_max_num_faces s) rgb)
    as [results|e] eqn:Hp; cycle 1.
  { unfold apply_face_filter, outcome, bind, extern, gets.
    rewrite Hc. simpl. by rewrite Hp. }
  rewrite (apply_face_filter_eq _ _ _ _ _ Hc Hp). unfold outcome at 1. simpl.
  by apply for_faces_outcome.
Qed.

(** Calls that leave index [i] alone leave it alone together. *)
Lemma replay_untouched post i : ∀ g f',
  Forall (λ c, untouched env c i) post →
  replay env post g = Ok f' → data f' !! i = data g !! i.
Proof.
  induction post as [|c post IH]; intros g f' Hall; simpl.
  - by intros [= <-].
  - apply Forall_cons in Hall as [Hc Hpost].
    destruct (replay_call env c g) as [g'|e] eqn:Hg; [|done].
    intros H. rewrite (IH _ _ Hpost H). by apply Hc.
Qed.

(** The last call that decides a value has the last word on it. *)
Lemma replay_last_writer pre c post frame f' i v w :
  replay env (pre ++ c :: post) frame = Ok f' →
  writes env c i v →
  Forall (λ c', untouched env c' i) post →
  data f' !! i = Some w → w = v.
Proof.
  rewrite replay_app.
  destruct (replay env pre frame) as [g|e]; [|done]. simpl.
  destruct (replay_call env c g) as [g'|e] eqn:Hc; [|done].
  intros Hpost Hw Hall Hf'.
  rewrite (replay_untouched _ _ _ _ Hall Hpost) in Hf'.
  by eapply Hw.
Qed.

End Replay.

(** ** Several faces *)

Lemma face_body_only_active env s o frame face :
  only_active s o →
  outcome (face_body env frame face s) = overlay_fn env o frame (landmark face).
Proof.
  intros H.
  pose proof (H "Blush" ltac:(set_solver)) as H1.
  pose proof (H "Sunglasses" ltac:(set_solver)) as H2.
  pose proof (H "RabbitEars" ltac:(set_solver)) as H3.
  pose proof (H "Background" ltac:(set_solver)) as H4.
  unfold face_body, filter_state, bind, gets, getitem, extern, ret, outcome.
  rewrite H1. destruct o; simpl.
  - destruct (add_blush env frame (landmark face)); simpl; [|done].
    rewrite H2. simpl. rewrite H3. simpl. by rewrite H4.
  - rewrite H2. simpl.
    destruct (overlay_sunglasses env frame (landmark face)); simpl; [|done].
    rewrite H3. simpl. by rewrite H4.
  - rewrite H2. simpl. rewrite H3. simpl.
    destruct (overlay_rabbit_ears env frame (landmark face)); simpl; [|done].
    by rewrite H4.
Qed.

Lemma for_faces_snoc env earlier last frame s f' :
  outcome (for_faces env (earlier ++ [last]) frame s) = Ok f' →
  ∃ f1, outcome (for_faces env earlier frame s) = Ok f1 ∧
        outcome (face_body env f1 last s) = Ok f'.
Proof.
  rewrite for_faces_app. unfold outcome, bind.
  pose proof (read_only_for_faces env earlier frame s) as Hs. unfold final in Hs.
  destruct (for_faces env earlier frame s) as [[[f1|e] s1] t1];
    simpl in *; [|done]. subst s1.
  unfold bind.
  destruct (face_body env f1 last s) as [[[f2|e] s2] t2] eqn:Hb; simpl; [|done].
  intros [= <-]. exists f1. by rewrite Hb.
Qed.

Lemma face_calls_overlay_call env s o face :
  flag s (overlay_name o) = true →
  ∃ before after,
    face_calls env s face = before ++ overlay_call o (landmark face) :: after.
Proof.
  intros Ho. unfold face_calls. destruct o; simpl in *; rewrite ?Ho.
  - by exists [], ((if flag s "Sunglasses"
                   then [Call_overlay_sunglasses (landmark face)] else []) ++
                  (if flag s "RabbitEars"
                   then [Call_overlay_rabbit_ears (landmark face)] else []) ++
                  (if background_active s
                   then [Call_imread (default "" (current_background s));
                         Call_apply_background_change (landmark face)
                           (cv2_imread env (default "" (current_background s)))]
                   else [])).
  - exists (if flag s "Blush" then [Call_add_blush (landmark face)] else []).
    by eexists.
  - exists ((if flag s "Blush" then [Call_add_blush (landmark face)] else []) ++
            (if flag s "Sunglasses"
             then [Call_overlay_sunglasses (landmark face)] else [])).
    eexists. by rewrite <- !app_assoc.
Qed.

(** C2. When the detector returns several faces and the call
    completes: the compositing calls are made face by face in the order
    of the detector's list, each face getting the calls of one pass of the
    loop body; the frame is handed from each call to the next, so the
    returned frame is exactly the logged calls applied one after the
    other to the input frame, and what the pass for the last face made of
    the frame left by all earlier faces.  Every overlay call of a face
    comes after every overlay call of the faces before it, and the last
    call that decides a pixel has the last word on it: where the regions
    of two faces overlap, the pixels are those of the later face's
    overlay, unless a still later call draws there.  In particular, when
    a single drawing overlay is active and covers what it draws over,
    every pixel in the region of the last face holds that face's
    overlay. *)
Theorem faces_composited_in_detector_order env s frame frame_rgb faces f' :
  cv2_cvtColor env frame = Ok frame_rgb →
  FaceMesh_process env (face_mesh_max_num_faces s) frame_rgb = Ok (Some faces) →
  outcome (apply_face_filter env frame s) = Ok f' →
  calls (apply_face_filter env frame s)
    = [Call_cvtColor frame; Call_process frame_rgb]
        ++ flat_map (face_calls env s) faces ∧
  (∀ earlier last, faces = earlier ++ [last] →
     ∃ f1, outcome (for_faces env earlier frame s) = Ok f1 ∧
           outcome (face_body env f1 last s) = Ok f') ∧
  (∀ o region colour earlier last,
     only_active s o → opaque (overlay_fn env o) region colour →
     faces = earlier ++ [last] →
     ∀ i v, region (landmark last) i = true → data f' !! i = Some v →
            v = colour (landmark last) i) ∧
  replay env (flat_map (face_calls env s) faces) frame = Ok f' ∧
  (∀ l1 face1 l2 face2 l3 o1 o2,
     faces = l1 ++ face1 :: l2 ++ face2 :: l3 →
     flag s (overlay_name o1) = true → flag s (overlay_name o2) = true →
     ∃ pre mid post,
       flat_map (face_calls env s) faces
       = pre ++ overlay_call o1 (landmark face1)
             :: mid ++ overlay_call o2 (landmark face2) :: post) ∧
  (∀ pre c post i v w,
     flat_map (face_calls env s) faces = pre ++ c :: post →
     writes env c i v →
     Forall (λ c', untouched env c' i) post →
     data f' !! i = Some w → w = v).
Proof.
  intros Hc Hp Hok.
  rewrite (apply_face_filter_eq _ _ _ _ _ Hc Hp) in Hok |- *.
  unfold outcome at 1 in Hok. unfold calls at 1. simpl in *.
  destruct (for_faces env faces frame s) as [[r s2] t2] eqn:Hf.
  unfold outcome, calls in *. simpl in *. subst r.
  split; [by rewrite (for_faces_Ok _ _ _ _ _ _ _ Hf)|].
  assert (∀ earlier last, faces = earlier ++ [last] →
            ∃ f1, (for_faces env earlier frame s).1.1 = Ok f1 ∧
                  (face_body env f1 last s).1.1 = Ok f') as Hlast.
  { intros earlier last ->. apply for_faces_snoc. unfold outcome. by rewrite Hf. }
  split; [done|].
  split.
  { intros o region colour earlier last Hact Hop Hfaces i v Hreg Hv.
    destruct (Hlast earlier last Hfaces) as (f1 & _ & Hbody).
    pose proof (face_body_only_active env s o f1 last Hact) as Ho.
    unfold outcome in Ho. rewrite Hbody in Ho. symmetry in Ho.
    by eapply Hop. }
  pose proof (for_faces_Ok_replay _ _ _ _ _ _ _ Hf) as Hreplay.
  split; [done|]. split.
  - intros l1 face1 l2 face2 l3 o1 o2 -> Ho1 Ho2.
    destruct (face_calls_overlay_call env s o1 face1 Ho1) as (b1 & a1 & E1).
    destruct (face_calls_overlay_call env s o2 face2 Ho2) as (b2 & a2 & E2).
    exists (flat_map (face_calls env s) l1 ++ b1),
           (a1 ++ flat_map (face_calls env s) l2 ++ b2),
           (a2 ++ flat_map (face_calls env s) l3).
    rewrite flat_map_app. simpl. rewrite flat_map_app. simpl.
    rewrite E1, E2. by rewrite <- !app_assoc.
  - intros pre c post i v w Hlog Hw Hall Hv. rewrite Hlog in Hreplay.
    by eapply replay_last_writer.
Qed.

Lemma World_paint_lookup base f lms i :
  data (World.paint base f lms) !! i
  = (λ v, if World.covers lms i then World.colour base lms i else v)
      <$> data f !! i.
Proof. simpl. by rewrite list_lookup_imap. Qed.

(** A drawing call of the small world leaves alone every index
    outside its face. *)
Lemma World_overlay_call_untouched files detect o lms i :
  World.covers lms i = false →
  untouched (World.make files detect) (overlay_call o lms) i.
Proof.
  intros Hcov g g' Hcall. destruct o; simpl in Hcall; injection Hcall as <-;
    rewrite World_paint_lookup, Hcov; by destruct (data g !! i).
Qed.

Lemma faces_composited_in_detector_order_witness :
  let env := World.make ∅ World.two_faces in
  let s := run env [ToggleBlush; ToggleSunglasses] in
  let face1 := landmark (World.face 1 [1; 2]%Z) in
  let face2 := landmark (World.face 2 [2; 3]%Z) in
  let f' := NdArray [1; 2; 3] [10; 201; 202; 202; 50; 60]%Z in
  replay env [Call_add_blush face1; Call_overlay_sunglasses face1;
              Call_add_blush face2; Call_overlay_sunglasses face2]
         World.frame6 = Ok f' ∧
  (∀ w, data f' !! 1 = Some w → w = 201%Z) ∧
  (∀ w, data f' !! 2 = Some w → w = 202%Z).
Proof.
  intros env s face1 face2 f'.
  destruct (faces_composited_in_detector_order env s World.frame6
              (NdArray [1; 2; 3] [30; 20; 10; 60; 50; 40]%Z)
              [World.face 1 [1; 2]; World.face 2 [2; 3]]%Z f')
    as (_ & _ & _ & Hreplay & _ & Hlast);
    [reflexivity | reflexivity | reflexivity |].
  split; [exact Hreplay|]. split; intros w Hw.
  - apply (Hlast [Call_add_blush face1] (Call_overlay_sunglasses face1)
             [Call_add_blush face2; Call_overlay_sunglasses face2]
             1 201%Z w eq_refl); [| |exact Hw].
    + intros g g' u [= <-]. rewrite World_paint_lookup.
      destruct (data g !! 1); simpl; [|discriminate]. by intros [= <-].
    + repeat constructor.
      * apply (World_overlay_call_untouched ∅ World.two_faces Blush face2 1).
        reflexivity.
      * apply (World_overlay_call_untouched ∅ World.two_faces Sunglasses face2 1).
        reflexivity.
  - apply (Hlast [Call_add_blush face1; Call_overlay_sunglasses face1;
                  Call_add_blush face2]
             (Call_overlay_sunglasses face2) [] 2 202%Z w eq_refl);
      [|constructor|exact Hw].
    intros g g' u [= <-]. rewrite World_paint_lookup.
    destruct (data g !! 2); simpl; [|discriminate]. by intros [= <-].
Defined.

(** ** The background image file *)

Lemma toggle_background_calls checked s : calls (toggle_background checked s) = [].
Proof.
  unfold toggle_background, bind, gets, modify, raise, calls.
  destruct checked; simpl; [|done]. by destruct (background_images s !! 1%Z).
Qed.

(** C6, as the claim states it, fails: with Background switched on
    and two faces in view, one call of [apply_face_filter] reads
    'space.jpg' from disk twice, and the next tick reads it twice again. *)
Lemma background_image_loaded_once_counterexample :
  let env := World.make World.with_space World.two_faces in
  let s := run env [ToggleBackground true] in
  let s2 := handle env s (TimerTimeout (Some World.frame6)) in
  List.filter is_imread (calls (apply_face_filter env World.frame6 s))
    = [Call_imread "space.jpg"; Call_imread "space.jpg"] ∧
  List.filter is_imread (calls (update_frame env (Some World.frame6) s2))
    = [Call_imread "space.jpg"; Call_imread "space.jpg"].
Proof. split; reflexivity. Qed.

(** C6, amended.  Selecting the background loads nothing:
    [toggle_background] calls no collaborator and stores only the file
    name.  In a reachable state a completed [apply_face_filter] calls
    [cv2.imread] on 'space.jpg' once for every detected face when the
    Background flag is set, and makes no other [imread] call. *)
Theorem background_image_read_once_per_face env evs frame f' s' t :
  let s := run env evs in
  apply_face_filter env frame s = (Ok f', s', t) →
  (∀ checked, calls (toggle_background checked s) = []) ∧
  ∃ frame_rgb results,
    cv2_cvtColor env frame = Ok frame_rgb ∧
    FaceMesh_process env 10 frame_rgb = Ok results ∧
    List.filter is_imread t
      = if flag s "Background"
        then (λ _, Call_imread "space.jpg") <$> default [] results
        else [].
Proof.
  intros s H. pose proof (invariant_run env evs) as I. fold s in I.
  split; [intros; apply toggle_background_calls|].
  apply apply_face_filter_Ok in H as (frame_rgb & results & Hc & Hp & _ & _ & ->).
  rewrite (inv_max_num_faces _ I) in Hp.
  exists frame_rgb, results. split; [done|]. split; [done|].
  destruct (invariant_background_active s I) as [Hact Hpath].
  simpl. rewrite filter_imread, Hact.
  destruct (flag s "Background"); [|done]. by rewrite Hpath.
Qed.

Lemma background_image_read_once_per_face_witness :
  let env := World.make World.with_space World.two_faces in
  let s := run env [ToggleBackground true] in
  ∃ t, calls (apply_face_filter env World.frame6 s) = t ∧
       List.filter is_imread t
       = (λ _, Call_imread "space.jpg")
           <$> [World.face 1 [1; 2]; World.face 2 [2; 3]]%Z.
Proof.
  intros env s.
  destruct (apply_face_filter env World.frame6 s) as [[r s'] t] eqn:E.
  assert (∃ f', r = Ok f') as [f' ->]
    by (vm_compute in E; injection E as <- _ _; by eexists).
  destruct (background_image_read_once_per_face
              env [ToggleBackground true] World.frame6 f' s' t E)
    as (_ & frame_rgb & results & Hc & Hp & Hread).
  injection Hc as <-. injection Hp as <-.
  exists t. split; [reflexivity | exact Hread].
Defined.

(** ** An unreadable background file *)

Lemma flag_background_off s k :
  flag (background_off s) k = if bool_decide (k = "Background") then false
                              else flag s k.
Proof.
  unfold flag, background_off. simpl.
  destruct (decide (k = "Background")) as [->|Hne].
  - by rewrite lookup_insert_eq.
  - rewrite lookup_insert_ne by done. by rewrite (bool_decide_eq_false_2 _ Hne).
Qed.

Lemma keys_present_background_off s : keys_present s → keys_present (background_off s).
Proof.
  intros K k Hk. unfold background_off. simpl.
  destruct (decide ("Background" = k)) as [<-|Hne].
  - rewrite lookup_insert_eq. by eexists.
  - rewrite lookup_insert_ne by done. by apply K.
Qed.

(** With Background off the loop body makes the same calls, the
    Background ones left out. *)
Lemma face_calls_background_off env s face :
  face_calls env (background_off s) face
  = List.filter (λ c, negb (is_background_call c)) (face_calls env s face).
Proof.
  unfold face_calls, background_active. rewrite !flag_background_off. simpl.
  rewrite !List.filter_app.
  destruct (flag s "Blush"), (flag s "Sunglasses"), (flag s "RabbitEars"),
    (flag s "Background" && truthy_str (current_background s)); reflexivity.
Qed.

(** Calls that do nothing to any frame can be left out of a replay. *)
Lemma replay_filter env (P : call → bool) l : ∀ g,
  Forall (λ c, P c = false → ∀ g, replay_call env c g = Ok g) l →
  replay env l g = replay env (List.filter P l) g.
Proof.
  induction l as [|c l IH]; intros g Hall; simpl; [done|].
  apply Forall_cons in Hall as [Hc Hl].
  destruct (P c) eqn:HP; simpl.
  - destruct (replay_call env c g); [by apply IH|done].
  - rewrite (Hc eq_refl). by apply IH.
Qed.

Lemma background_calls_skipped env segment resize s faces :
  apply_background_change env = apply_background_change_spec segment resize →
  cv2_imread env (default "" (current_background s)) = None →
  Forall (λ c, negb (is_background_call c) = false →
               ∀ g, replay_call env c g = Ok g)
         (flat_map (face_calls env s) faces).
Proof.
  intros Hspec Hnone. induction faces as [|face rest IH]; simpl; [done|].
  apply Forall_app. split; [|done]. unfold face_calls. rewrite Hnone.
  destruct (flag s "Blush"), (flag s "Sunglasses"), (flag s "RabbitEars"),
    (background_active s); simpl;
    repeat (apply Forall_cons; split); try apply Forall_nil; try done;
    intros _ g; simpl; by rewrite Hspec.
Qed.

Lemma background_calls_absent_image env s faces :
  cv2_imread env (default "" (current_background s)) = None →
  Forall (λ c, ∀ lms bg, c = Call_apply_background_change lms bg → bg = None)
         (flat_map (face_calls env s) faces).
Proof.
  intros Hnone. induction faces as [|face rest IH]; simpl; [done|].
  apply Forall_app. split; [|done]. unfold face_calls. rewrite Hnone.
  destruct (flag s "Blush"), (flag s "Sunglasses"), (flag s "RabbitEars"),
    (background_active s); simpl;
    repeat apply Forall_cons_2; try apply Forall_nil_2;
    intros lms bg E; by simplify_eq.
Qed.

(** C5. With [apply_background_change] as the specification describes
    it, a tick in which the selected background file cannot be read goes
    as follows.  [cv2.imread] gives no image, [apply_face_filter] hands
    that on, and the overlay is skipped: in every reachable state with
    Background on, [apply_face_filter] has the very outcome it has with
    Background off, the same returned frame or the same exception, so the
    missing file interrupts nothing; and when it completes, every
    Background call was made with the absent image, and the calls besides
    the Background ones are exactly the calls made with Background off,
    so the other active filters run for every face as they do without
    it. *)
Theorem unreadable_background_is_skipped env segment resize evs frame :
  let s := run env evs in
  apply_background_change env = apply_background_change_spec segment resize →
  flag s "Background" = true →
  cv2_imread env "space.jpg" = None →
  outcome (apply_face_filter env frame s)
    = outcome (apply_face_filter env frame (background_off s)) ∧
  (∀ f' s' t,
     apply_face_filter env frame s = (Ok f', s', t) →
     List.filter (λ c, negb (is_background_call c)) t
       = calls (apply_face_filter env frame (background_off s)) ∧
     Forall (λ c, ∀ lms bg, c = Call_apply_background_change lms bg → bg = None)
            t).
Proof.
  intros s Hspec Hflag Hfile.
  pose proof (invariant_run env evs) as I. fold s in I.
  pose proof (invariant_keys_present s I) as K.
  assert (cv2_imread env (default "" (current_background s)) = None) as Hnone.
  { destruct (invariant_background_active s I) as [_ Hpath].
    by rewrite (Hpath Hflag). }
  assert (∀ faces g,
            replay env (flat_map (face_calls env s) faces) g
            = replay env (flat_map (face_calls env (background_off s)) faces) g)
    as Hreplay.
  { intros faces g.
    rewrite (replay_filter env (λ c, negb (is_background_call c)))
      by (by eapply background_calls_skipped).
    rewrite filter_flat_map. f_equal. clear g.
    induction faces as [|face rest IH]; simpl; [done|].
    by rewrite IH, face_calls_background_off. }
  assert (outcome (apply_face_filter env frame s)
          = outcome (apply_face_filter env frame (background_off s))) as Hout.
  { rewrite !apply_face_filter_outcome
      by (done || by apply keys_present_background_off).
    simpl. destruct (cv2_cvtColor env frame) as [rgb|e]; [|done].
    destruct (FaceMesh_process env (face_mesh_max_num_faces s) rgb); [|done].
    apply Hreplay. }
  split; [done|]. intros f' s' t H.
  rewrite H in Hout. unfold outcome at 1 in Hout. simpl in Hout.
  destruct (apply_face_filter env frame (background_off s))
    as [[r s2] t2] eqn:Hoff.
  unfold outcome in Hout. simpl in Hout. subst r. unfold calls. simpl.
  apply apply_face_filter_Ok in H as (rgb & results & Hc & Hp & _ & _ & ->).
  apply apply_face_filter_Ok in Hoff
    as (rgb' & results' & Hc' & Hp' & _ & _ & ->).
  rewrite Hc in Hc'. injection Hc' as <-. simpl in Hp'.
  rewrite Hp in Hp'. injection Hp' as <-.
  split.
  - simpl. f_equal. f_equal. rewrite filter_flat_map.
    induction (default [] results) as [|face rest IH]; simpl; [done|].
    by rewrite IH, face_calls_background_off.
  - repeat (apply Forall_cons_2; [by intros lms bg E|]).
    by apply background_calls_absent_image.
Qed.

Lemma unreadable_background_is_skipped_witness :
  let env := World.make ∅ World.two_faces in
  let s := run env [ToggleSunglasses; ToggleBackground true] in
  outcome (apply_face_filter env World.frame6 s)
    = outcome (apply_face_filter env World.frame6 (background_off s)) ∧
  outcome (apply_face_filter env World.frame6 s)
    = Ok (NdArray [1; 2; 3] [10; 201; 202; 202; 50; 60]%Z).
Proof.
  intros env s.
  destruct (unreadable_background_is_skipped env (λ _, World.covers)
              (λ img _, img) [ToggleSunglasses; ToggleBackground true]
              World.frame6) as [Hout _];
    [reflexivity | reflexivity | reflexivity |].
  split; [exact Hout | reflexivity].
Defined.

(** ** Frames of the wrong shape *)

Section Raise.
Variable env : Env.

(** An exception leaving the loop body is a [KeyError] for a flag the
    dict lacks, or was raised by one of the four filter functions. *)
Lemma face_body_Raise frame face s e s' t :
  face_body env frame face s = (Raise e, s', t) →
  (∃ k, k ∈ filter_names ∧ filter_states s !! k = None) ∨ raised_by env e.
Proof.
  unfold face_body, filter_state, bind, gets, getitem, extern, ret, raise.
  destruct (filter_states s !! "Blush") as [b1|] eqn:K1; simpl;
    [|intros _; left; exists "Blush"; split; [set_solver|done]].
  destruct b1; simpl.
  all: try (destruct (add_blush env frame (landmark face)) as [f1|e1] eqn:E1; simpl;
            [|intros [= <- _ _]; right; unfold raised_by; eauto 10]).
  all: (destruct (filter_states s !! "Sunglasses") as [b2|] eqn:K2; simpl;
        [|intros _; left; exists "Sunglasses"; split; [set_solver|done]]);
       destruct b2; simpl.
  all: try (destruct (overlay_sunglasses env _ (landmark face)) as [f2|e2] eqn:E2;
            simpl; [|intros [= <- _ _]; right; unfold raised_by; eauto 10]).
  all: (destruct (filter_states s !! "RabbitEars") as [b3|] eqn:K3; simpl;
        [|intros _; left; exists "RabbitEars"; split; [set_solver|done]]);
       destruct b3; simpl.
  all: try (destruct (overlay_rabbit_ears env _ (landmark face)) as [f3|e3] eqn:E3;
            simpl; [|intros [= <- _ _]; right; unfold raised_by; eauto 10]).
  all: (destruct (filter_states s !! "Background") as [b4|] eqn:K4; simpl;
        [|intros _; left; exists "Background"; split; [set_solver|done]]);
       destruct b4; simpl; try done.
  all: destruct (truthy_str (current_background s)); simpl; try done.
  all: destruct (apply_background_change env _ _ _) as [f4|e4] eqn:E4; simpl;
       [done|intros [= <- _ _]; right; unfold raised_by; eauto 10].
Qed.

Lemma for_faces_Raise faces : ∀ frame s e s' t,
  for_faces env faces frame s = (Raise e, s', t) →
  (∃ k, k ∈ filter_names ∧ filter_states s !! k = None) ∨ raised_by env e.
Proof.
  induction faces as [|face rest IH]; intros frame s e s' t; simpl; [done|].
  intros [H | (f1 & s1 & t1 & t2 & H1 & H2 & _)]%bind_Raise_inv.
  - by eapply face_body_Raise.
  - pose proof (read_only_face_body env frame face s) as Hs.
    unfold final in Hs. rewrite H1 in Hs. simpl in Hs. subst s1.
    by eapply IH.
Qed.

Lemma apply_face_filter_Raise frame s e s' t :
  apply_face_filter env frame s = (Raise e, s', t) →
  (∃ k, k ∈ filter_names ∧ filter_states s !! k = None) ∨ raised_by env e.
Proof.
  intros H.
  destruct (cv2_cvtColor env frame) as [rgb|e1] eqn:Hc; cycle 1.
  { unfold apply_face_filter, bind, extern in H. rewrite Hc in H.
    injection H as <- _ _. right. unfold raised_by. eauto. }
  destruct (FaceMesh_process env (face_mesh_max_num_faces s) rgb)
    as [results|e1] eqn:Hp; cycle 1.
  { unfold apply_face_filter, bind, extern, gets in H.
    rewrite Hc in H. simpl in H. rewrite Hp in H.
    injection H as <- _ _. right. unfold raised_by. eauto. }
  rewrite (apply_face_filter_eq _ _ _ _ _ Hc Hp) in H.
  destruct (for_faces env (default [] results) frame s) as [[r s2] t2] eqn:Hf.
  unfold outcome in H. simpl in H. injection H as -> _ _.
  by eapply for_faces_Raise.
Qed.

End Raise.

(** With collaborators that do not fail, every tick that reads a frame
    completes, in every reachable state. *)
Lemma update_frame_completes env evs frame :
  well_behaved env → outcome (update_frame env (Some frame) (run env evs)) = Ok tt.
Proof.
  intros (Hnr & Hflip & Hq). pose proof (invariant_run env evs) as I.
  set (s := run env evs) in *.
  assert (∀ f, ∃ rgb pixmap,
            cv2_cvtColor env f = Ok rgb ∧ QImage_RGB888 rgb = Some pixmap) as Hcvt.
  { intros f. destruct (cv2_cvtColor env f) as [rgb|e] eqn:Hc.
    - destruct (Hq f rgb Hc) as [pixmap Hp]. by exists rgb, pixmap.
    - destruct (Hnr e). unfold raised_by. eauto. }
  unfold update_frame, outcome, bind, extern, gets. simpl.
  destruct (Hflip frame) as [flipped ->].
  destruct (any_values (filter_states s)).
  - destruct (apply_face_filter env flipped s) as [[[shown|e] s2] t2] eqn:Ha.
    + destruct (Hcvt shown) as (rgb & pixmap & -> & Hp). simpl. by rewrite Hp.
    + apply apply_face_filter_Raise in Ha as [(k & Hk & Hnone)|Hr].
      * destruct (inv_keys _ I k Hk) as [b Hb]. congruence.
      * by destruct (Hnr e).
  - simpl. destruct (Hcvt flipped) as (rgb & pixmap & -> & Hp). simpl.
    by rewrite Hp.
Qed.

(** C4, as the claim states it, fails.  A 1 × 1 frame with four
    channels has the wrong channel count; with a flag set and no face in
    view [apply_face_filter] returns it as it is, no condition is
    signalled, and the tick completes and displays it. *)
Lemma malformed_frame_counterexample :
  let env := World.make ∅ World.no_face in
  let s := run env [ToggleSunglasses] in
  valid_shape World.bgra4 = false ∧
  apply_face_filter env World.bgra4 s
    = (Ok World.bgra4, s,
       [Call_cvtColor World.bgra4;
        Call_process (NdArray [1; 1; 3] [3; 2; 1]%Z)]) ∧
  outcome (update_frame env (Some World.bgra4) s) = Ok tt.
Proof. repeat split; reflexivity. Qed.

(** C4, amended.  [apply_face_filter] examines nothing of the frame
    itself and has no error of its own.  In every reachable state, and for
    a frame of any shape, its outcome is exactly that of the calls it
    makes: the exception of [cv2.cvtColor] if that call raises; else the
    exception of the detector if that call raises; else the compositing
    calls of the detected faces applied in order to the frame, which is
    the exception of the first of them that raises or the frame the last
    one returned. *)
Theorem apply_face_filter_outcome_is_that_of_its_calls env evs frame :
  let s := run env evs in
  outcome (apply_face_filter env frame s)
  = match cv2_cvtColor env frame with
    | Raise e => Raise e
    | Ok frame_rgb =>
        match FaceMesh_process env 10 frame_rgb with
        | Raise e => Raise e
        | Ok results =>
            replay env (flat_map (face_calls env s) (default [] results)) frame
        end
    end.
Proof.
  intros s. pose proof (invariant_run env evs) as I. fold s in I.
  rewrite (apply_face_filter_outcome env frame s (invariant_keys_present s I)).
  by rewrite (inv_max_num_faces _ I).
Qed.

(** * Further properties of the slots *)

(** ** Attributes a slot leaves alone *)

Lemma keeps_bind {A B C} (p : CameraApp → C) (m : M A) (f : A → M B) :
  keeps p m → (∀ a, keeps p (f a)) → keeps p (bind m f).
Proof.
  intros Hm Hf s. specialize (Hm s). unfold final, bind in *.
  destruct (m s) as [[[a|e] s1] t1]; simpl in *; [|done].
  specialize (Hf a s1). unfold final in Hf.
  destruct (f a s1) as [[r s2] t2]. simpl in *. congruence.
Qed.

Lemma read_only_keeps {A C} (p : CameraApp → C) (m : M A) : read_only m → keeps p m.
Proof. intros H s. by rewrite H. Qed.

Lemma keeps_toggle_filter {C} (p : CameraApp → C) name :
  (∀ d s, p (set_filter_states d s) = p s) → keeps p (toggle_filter name).
Proof.
  intros Hp s. rewrite toggle_filter_eq.
  destruct (filter_states s !! name); unfold final; simpl; [apply Hp|done].
Qed.

Lemma keeps_toggle_background {C} (p : CameraApp → C) checked :
  (∀ d s, p (set_filter_states d s) = p s) →
  (∀ b s, p (set_current_background b s) = p s) →
  keeps p (toggle_background checked).
Proof.
  intros Hf Hb s. unfold toggle_background, final, bind, gets, modify, raise.
  destruct checked; simpl; [|by rewrite Hf, Hb].
  destruct (background_images s !! 1%Z); simpl; [by rewrite Hf, Hb|done].
Qed.

Lemma keeps_timer_update_frame env reading :
  keeps timer_active (update_frame env reading).
Proof.
  destruct reading as [frame|]; simpl; [|done].
  apply keeps_bind; [done|intros f1].
  apply keeps_bind; [done|intros d].
  apply keeps_bind.
  { apply read_only_keeps. destruct (any_values d);
      [apply read_only_apply_face_filter | apply read_only_ret]. }
  intros f2. apply keeps_bind; [done|intros rgb].
  by destruct (QImage_RGB888 rgb).
Qed.

(** A tick that raises has not assigned any attribute of [self]. *)
Lemma update_frame_Raise_final env reading s e s' t :
  update_frame env reading s = (Raise e, s', t) → s' = s.
Proof.
  destruct reading as [frame|]; [|done]. unfold update_frame.
  intros [H | (flipped & s1 & t1 & t2 & H1 & H & _)]%bind_Raise_inv.
  { unfold extern in H. by injection H as _ <- _. }
  unfold extern in H1. injection H1 as _ <- _.
  apply bind_Raise_inv in H as [H | (d & s2 & ? & ? & [= <- <- <-] & H & _)];
    [done|].
  apply bind_Raise_inv in H as [H | (shown & s3 & ? & ? & H3 & H & _)].
  { destruct (any_values (filter_states s)); [|done].
    pose proof (read_only_apply_face_filter env flipped s) as Hs.
    unfold final in Hs. by rewrite H in Hs. }
  assert (s3 = s) as ->.
  { destruct (any_values (filter_states s)); [|by injection H3 as _ <- _].
    pose proof (read_only_apply_face_filter env flipped s) as Hs.
    unfold final in Hs. by rewrite H3 in Hs. }
  apply bind_Raise_inv in H as [H | (rgb & s4 & ? & ? & H4 & H & _)].
  { unfold extern in H. by injection H as _ <- _. }
  unfold extern in H4. injection H4 as _ <- _.
  destruct (QImage_RGB888 rgb); [|by injection H as _ <-].
  by unfold bind, modify, gets in H.
Qed.

(** ** The keys of [filter_states] *)

Lemma only_filter_names_handle env s ev :
  invariant s → only_filter_names s → only_filter_names (handle env s ev).
Proof.
  intros I Hk.
  assert (∀ name, name ∈ filter_names →
            only_filter_names (final (toggle_filter name s))) as Htoggle.
  { intros name Hn k. rewrite toggle_filter_eq.
    destruct (filter_states s !! name) as [v|]; unfold final; simpl; [|apply Hk].
    destruct (decide (name = k)) as [<-|Hne]; [done|].
    rewrite lookup_insert_ne by done. apply Hk. }
  unfold handle. destruct ev as [| | | checked|reading| |]; simpl.
  - apply Htoggle. set_solver.
  - apply Htoggle. set_solver.
  - apply Htoggle. set_solver.
  - intros k. rewrite toggle_background_eq by apply I. unfold final. simpl.
    destruct (decide ("Background" = k)) as [<-|Hne]; [set_solver|].
    rewrite lookup_insert_ne by done. apply Hk.
  - intros k. pose proof (keeps_config_update_frame env reading s) as H.
    unfold config in H. injection H as _ -> _ _. apply Hk.
  - intros k. pose proof (keeps_config_capture_image env s) as H.
    unfold config in H. injection H as _ -> _ _. apply Hk.
  - done.
Qed.

Lemma only_filter_names_foldl env evs : ∀ s,
  invariant s → only_filter_names s → only_filter_names (foldl (handle env) s evs).
Proof.
  induction evs as [|ev evs IH]; intros s I Hk; simpl; [done|].
  apply IH; [by apply invariant_handle | by apply only_filter_names_handle].
Qed.

Lemma only_filter_names_run env evs : only_filter_names (run env evs).
Proof.
  apply only_filter_names_foldl; [apply invariant_init|].
  intros k [v Hv]. simpl in Hv. unfold filter_names.
  repeat (apply lookup_insert_Some in Hv as [[<- _]|[_ Hv]]; [set_solver|]).
  by rewrite lookup_empty in Hv.
Qed.

(** X1. In every state the event loop can reach, the four toggle
    slots complete: none raises [KeyError], and none calls a
    collaborator. *)
Theorem toggle_slots_never_fail env evs checked :
  let s := run env evs in
  (outcome (slot env ToggleBlush s) = Ok tt ∧ calls (slot env ToggleBlush s) = []) ∧
  (outcome (slot env ToggleSunglasses s) = Ok tt ∧
   calls (slot env ToggleSunglasses s) = []) ∧
  (outcome (slot env ToggleRabbitEars s) = Ok tt ∧
   calls (slot env ToggleRabbitEars s) = []) ∧
  (outcome (slot env (ToggleBackground checked) s) = Ok tt ∧
   calls (slot env (ToggleBackground checked) s) = []).
Proof.
  intros s. pose proof (invariant_run env evs) as I. fold s in I.
  assert (∀ name, name ∈ filter_names →
            outcome (toggle_filter name s) = Ok tt ∧
            calls (toggle_filter name s) = []) as Htoggle.
  { intros name Hn. rewrite toggle_filter_eq.
    by destruct (inv_keys _ I name Hn) as [v ->]. }
  simpl. split; [apply Htoggle; repeat constructor|].
  split; [apply Htoggle; repeat constructor|].
  split; [apply Htoggle; repeat constructor|].
  by rewrite toggle_background_eq by apply I.
Qed.

(** X2. [toggle_filter] with a name that is not one of the four
    filters raises [KeyError] for that name, in every reachable state,
    and leaves [self] as it was. *)
Theorem toggle_filter_unknown_name env evs name :
  name ∉ filter_names →
  toggle_filter name (run env evs) = (Raise (KeyError name), run env evs, []).
Proof.
  intros Hn. rewrite toggle_filter_eq.
  destruct (filter_states (run env evs) !! name) as [v|] eqn:Hv; [|done].
  destruct Hn. apply (only_filter_names_run env evs). by eexists.
Qed.

Lemma toggle_filter_unknown_name_witness :
  let env := World.make ∅ World.no_face in
  toggle_filter "Glitter" (run env [ToggleBlush])
    = (Raise (KeyError "Glitter"), run env [ToggleBlush], []).
Proof.
  intros env. apply (toggle_filter_unknown_name env [ToggleBlush] "Glitter").
  unfold filter_names. intros H.
  repeat (apply elem_of_cons in H as [H|H]; [discriminate H|]).
  by apply elem_of_nil in H.
Defined.

(** X3. Toggling the same filter twice gives back exactly the state
    before the first toggle: every attribute of [self], not only the
    flag. *)
Theorem toggle_filter_twice name s :
  is_Some (filter_states s !! name) →
  final (toggle_filter name (final (toggle_filter name s))) = s.
Proof.
  intros [v Hv]. rewrite (toggle_filter_eq name s), Hv. unfold final at 2. simpl.
  rewrite toggle_filter_eq. simpl. rewrite lookup_insert_eq. unfold final. simpl.
  rewrite insert_insert_eq, negb_involutive, (insert_id _ _ _ Hv).
  by destruct s.
Qed.

Lemma toggle_filter_twice_witness :
  let s := run (World.make ∅ World.no_face) [ToggleBackground true] in
  final (toggle_filter "Sunglasses" (final (toggle_filter "Sunglasses" s))) = s.
Proof.
  intros s. apply (toggle_filter_twice "Sunglasses" s).
  exists false. reflexivity.
Defined.

(** ** The flags as a function of the event history *)

Lemma handle_overlay_flag env s ev o b :
  invariant s →
  filter_states s !! overlay_name o = Some b →
  filter_states (handle env s ev) !! overlay_name o
    = Some (if toggles o ev then negb b else b).
Proof.
  intros I Hb.
  assert (∀ o', filter_states (final (toggle_filter (overlay_name o') s))
                  !! overlay_name o
                = Some (if bool_decide (o' = o) then negb b else b)) as Htoggle.
  { intros o'. rewrite toggle_filter_eq.
    destruct (inv_keys _ I (overlay_name o')) as [v Hv];
      [destruct o'; set_solver|].
    rewrite Hv. unfold final. simpl. case_bool_decide as Ho.
    - subst o'. rewrite lookup_insert_eq. congruence.
    - rewrite lookup_insert_ne; [done|]. by destruct o, o'. }
  unfold handle. destruct ev as [| | | checked|reading| |]; simpl.
  - specialize (Htoggle Blush). simpl in Htoggle. rewrite Htoggle. by destruct o.
  - specialize (Htoggle Sunglasses). simpl in Htoggle. rewrite Htoggle.
    by destruct o.
  - specialize (Htoggle RabbitEars). simpl in Htoggle. rewrite Htoggle.
    by destruct o.
  - rewrite toggle_background_eq by apply I. unfold final. simpl.
    rewrite lookup_insert_ne; by destruct o.
  - pose proof (keeps_config_update_frame env reading s) as H.
    unfold config in H. injection H as _ -> _ _. by destruct o.
  - pose proof (keeps_config_capture_image env s) as H.
    unfold config in H. injection H as _ -> _ _. by destruct o.
  - by destruct o.
Qed.

Lemma foldl_overlay_flag env o evs : ∀ s b,
  invariant s →
  filter_states s !! overlay_name o = Some b →
  filter_states (foldl (handle env) s evs) !! overlay_name o
    = Some (xorb b (Nat.odd (length (List.filter (toggles o) evs)))).
Proof.
  induction evs as [|ev evs IH]; intros s b I Hb; simpl.
  - by rewrite xorb_false_r.
  - rewrite (IH _ _ (invariant_handle env s ev I)
               (handle_overlay_flag env s ev o b I Hb)).
    f_equal. destruct (toggles o ev); simpl; [|done].
    rewrite Nat.odd_succ, <- Nat.negb_odd.
    by destruct b, (Nat.odd _).
Qed.

(** X4. After any sequence of events, each of the Blush, Sunglasses
    and RabbitEars flags is true exactly when its button has been
    toggled an odd number of times; no other event, and no tick, has any
    influence on it. *)
Theorem overlay_flag_parity env evs o :
  filter_states (run env evs) !! overlay_name o
    = Some (Nat.odd (length (List.filter (toggles o) evs))).
Proof.
  unfold run. rewrite (foldl_overlay_flag env o evs CameraApp_init false).
  - done.
  - apply invariant_init.
  - by destruct o.
Qed.

(** X5. In a reachable state a call of [toggle_background] overrides
    the one before it: two calls in a row leave the state that the second
    one alone would have left.  In particular the call is idempotent. *)
Theorem toggle_background_overrides env evs c1 c2 :
  let s := run env evs in
  final (toggle_background c2 (final (toggle_background c1 s)))
    = final (toggle_background c2 s).
Proof.
  intros s. pose proof (invariant_run env evs) as I. fold s in I.
  rewrite (toggle_background_eq c1 s) by apply I. unfold final at 2. simpl.
  rewrite !toggle_background_eq by apply I. unfold final. simpl.
  by rewrite insert_insert_eq.
Qed.

Lemma foldl_background_flag env evs : ∀ s b,
  invariant s →
  filter_states s !! "Background" = Some b →
  filter_states (foldl (handle env) s evs) !! "Background"
    = Some (foldl (λ b ev, match ev with ToggleBackground c => c | _ => b end)
                  b evs).
Proof.
  induction evs as [|ev evs IH]; intros s b I Hb; simpl; [done|].
  apply IH; [by apply invariant_handle|].
  assert (∀ o, filter_states (final (toggle_filter (overlay_name o) s))
                 !! "Background" = Some b) as Htoggle.
  { intros o. rewrite toggle_filter_eq.
    destruct (inv_keys _ I (overlay_name o)) as [v Hv]; [destruct o; set_solver|].
    rewrite Hv. unfold final. simpl. rewrite lookup_insert_ne; [done|].
    by destruct o. }
  unfold handle. destruct ev as [| | | checked|reading| |]; simpl.
  - apply (Htoggle Blush).
  - apply (Htoggle Sunglasses).
  - apply (Htoggle RabbitEars).
  - rewrite toggle_background_eq by apply I. unfold final. simpl.
    by rewrite lookup_insert_eq.
  - pose proof (keeps_config_update_frame env reading s) as H.
    unfold config in H. by injection H as _ -> _ _.
  - pose proof (keeps_config_capture_image env s) as H.
    unfold config in H. by injection H as _ -> _ _.
  - done.
Qed.

(** X6. After any sequence of events the Background flag is the
    [checked] state the Background button delivered last (false if it
    never was toggled), and the selected file is 'space.jpg' or nothing
    accordingly. *)
Theorem background_follows_last_toggle env evs :
  filter_states (run env evs) !! "Background" = Some (last_background evs) ∧
  current_background (run env evs)
    = if last_background evs then Some "space.jpg" else None.
Proof.
  assert (filter_states (run env evs) !! "Background"
          = Some (last_background evs)) as H.
  { unfold run, last_background.
    by apply foldl_background_flag; [apply invariant_init|]. }
  split; [done|].
  rewrite (inv_background _ (invariant_run env evs)). unfold flag. rewrite H.
  by destruct (last_background evs).
Qed.

(** X7. No slot adds or removes a key of [filter_states], so in every
    reachable state [any(self.filter_states.values())], the test that
    decides whether a tick runs detection, is the disjunction of the four
    flags. *)
Theorem any_filter_is_one_of_four env evs :
  let s := run env evs in
  any_values (filter_states s)
    = flag s "Blush" || flag s "Sunglasses" || flag s "RabbitEars"
      || flag s "Background".
Proof.
  intros s. pose proof (only_filter_names_run env evs) as Hk. fold s in Hk.
  apply eq_true_iff_eq. rewrite any_values_true, !orb_true_iff.
  unfold flag. rewrite !bool_decide_eq_true. split.
  - intros [k Hv]. specialize (Hk k (mk_is_Some _ _ Hv)).
    unfold filter_names in Hk.
    repeat (apply elem_of_cons in Hk as [->|Hk]); auto.
    by apply elem_of_nil in Hk.
  - intros [[[H|H]|H]|H]; eauto.
Qed.

(** ** Ticks that fail, and what stays on display *)

(** X8. A tick that ends with an exception, whichever call raised it
    and however many overlays had been drawn by then, has changed no
    attribute of [self]: the scene still shows the previous picture and
    [current_frame] is still the previous frame. *)
Theorem failed_tick_changes_nothing env reading s e :
  outcome (update_frame env reading s) = Raise e →
  final (update_frame env reading s) = s.
Proof.
  destruct (update_frame env reading s) as [[r s'] t] eqn:H.
  unfold outcome, final. simpl. intros ->.
  by eapply update_frame_Raise_final.
Qed.

Lemma failed_tick_changes_nothing_witness :
  let env := World.make ∅ World.two_faces in
  let s := World.only_blush_key
             (run env [ToggleSunglasses; TimerTimeout (Some World.frame6)]) in
  final (update_frame env (Some World.frame6) s) = s.
Proof.
  intros env s.
  apply (failed_tick_changes_nothing env (Some World.frame6) s
           (KeyError "Sunglasses")).
  reflexivity.
Defined.

Lemma display_consistent_handle env s ev :
  display_consistent env s → display_consistent env (handle env s ev).
Proof.
  intros D. unfold handle.
  assert (∀ m : M unit, keeps scene m → keeps current_frame m →
            display_consistent env (final (m s))) as Hkeep.
  { intros m Hs Hc. unfold display_consistent in *.
    rewrite Hc. by setoid_rewrite Hs. }
  destruct ev as [| | | checked|reading| |]; unfold slot;
    try (apply Hkeep; first [by apply keeps_toggle_filter
                            | by apply keeps_toggle_background
                            | done]).
  - destruct (update_frame env reading s) as [[[[]|e] s'] t] eqn:H;
      unfold final; simpl.
    + destruct reading as [frame|]; [|injection H as <- _; by left].
      apply update_frame_Ok in H
        as (flipped & shown & tmid & rgb & pixmap & _ & _ & Hcvt & Hq
            & Hscene & Hcur & _ & _).
      right. by exists shown, rgb, pixmap.
    + by rewrite (update_frame_Raise_final _ _ _ _ _ _ H).
  - apply Hkeep; apply read_only_keeps;
      unfold capture_image; (apply read_only_bind; [done|intros [f|]]; [|done]);
      read_only_tac.
Qed.

Lemma display_consistent_foldl env evs : ∀ s,
  display_consistent env s → display_consistent env (foldl (handle env) s evs).
Proof.
  induction evs as [|ev evs IH]; intros s D; simpl; [done|].
  by apply IH, display_consistent_handle.
Qed.

(** X9. In every reachable state the scene holds at most one picture,
    and a picture on display is always the one made from the stored
    [current_frame] (its colour conversion, read with the shape's height
    and width): what [capture_image] would save is what is shown. *)
Theorem display_shows_stored_frame env evs :
  let s := run env evs in
  length (scene s) ≤ 1 ∧ display_consistent env s.
Proof.
  intros s.
  assert (display_consistent env s) as D.
  { apply display_consistent_foldl. by left. }
  split; [|done].
  destruct D as [-> | (f & rgb & pixmap & _ & _ & _ & ->)]; simpl; lia.
Qed.

(** ** The stored frame *)

Lemma handle_current_frame env s ev :
  reads_frame ev = false → current_frame (handle env s ev) = current_frame s.
Proof.
  unfold handle. destruct ev as [| | | checked|[frame|]| |]; simpl; try done;
    intros _.
  - by apply (keeps_toggle_filter current_frame).
  - by apply (keeps_toggle_filter current_frame).
  - by apply (keeps_toggle_filter current_frame).
  - by apply (keeps_toggle_background current_frame).
  - apply (read_only_keeps current_frame). unfold capture_image.
    apply read_only_bind; [done|intros [f|]]; [|done]. read_only_tac.
Qed.

Lemma foldl_current_frame env evs : ∀ s,
  List.filter reads_frame evs = [] →
  current_frame (foldl (handle env) s evs) = current_frame s.
Proof.
  induction evs as [|ev evs IH]; intros s; simpl; [done|].
  destruct (reads_frame ev) eqn:Hr; [done|]. intros H.
  by rewrite (IH _ H), handle_current_frame.
Qed.

(** X10. As long as no tick has read a frame from the camera, there is
    no stored frame and [capture_image] does nothing: it writes no file,
    opens no window and raises nothing. *)
Theorem capture_before_first_frame env evs :
  List.filter reads_frame evs = [] →
  current_frame (run env evs) = None ∧
  capture_image env (run env evs) = (Ok tt, run env evs, []).
Proof.
  intros H. pose proof (foldl_current_frame env evs CameraApp_init H) as Hc.
  fold (run env evs) in Hc. simpl in Hc. split; [done|].
  unfold capture_image, bind, gets. by rewrite Hc.
Qed.

Lemma capture_before_first_frame_witness :
  let env := World.make ∅ World.two_faces in
  let evs := [StartCamera; ToggleBlush; TimerTimeout None; CaptureImage] in
  current_frame (run env evs) = None ∧
  capture_image env (run env evs) = (Ok tt, run env evs, []).
Proof.
  intros env evs. apply (capture_before_first_frame env evs). reflexivity.
Defined.

(** X11. Once a frame has been stored, no event removes it: after a
    failed camera read or a failed tick the view may be empty, but
    [current_frame] still holds a frame for [capture_image] to save. *)
Theorem current_frame_never_cleared env s ev :
  is_Some (current_frame s) → is_Some (current_frame (handle env s ev)).
Proof.
  intros Hs. destruct (reads_frame ev) eqn:Hr.
  - destruct ev as [| | | |[frame|]| |]; try done. unfold handle, slot.
    destruct (update_frame env (Some frame) s) as [[[[]|e] s'] t] eqn:H;
      unfold final; simpl.
    + apply update_frame_Ok in H
        as (flipped & shown & tmid & rgb & pixmap & _ & _ & _ & _ & _ & Hcur & _).
      by exists shown.
    + by rewrite (update_frame_Raise_final _ _ _ _ _ _ H).
  - by rewrite handle_current_frame.
Qed.

Lemma current_frame_never_cleared_witness :
  let env := World.make ∅ World.two_faces in
  let s := run env [TimerTimeout (Some World.frame6)] in
  is_Some (current_frame (handle env s (TimerTimeout None))).
Proof.
  intros env s. apply (current_frame_never_cleared env s (TimerTimeout None)).
  eexists. reflexivity.
Defined.

(** ** Calls a tick does not make *)

Lemma for_faces_no_process env faces frame s :
  List.filter is_process (calls (for_faces env faces frame s)) = [].
Proof.
  pose proof (filter_prefix is_process _ _
                (for_faces_calls_prefix env faces frame s)) as H.
  rewrite filter_process in H. by apply prefix_nil_inv in H.
Qed.

(** X12. With no background selected ([current_background] is [None]
    or the empty string), [apply_face_filter] never reads an image file
    and never calls [apply_background_change], whatever the flags say and
    whatever its outcome: a Background flag that was set without a
    selection has no effect on the frame. *)
Theorem no_selection_no_background env s frame :
  truthy_str (current_background s) = false →
  List.filter is_imread (calls (apply_face_filter env frame s)) = [] ∧
  List.filter is_apply_background_change (calls (apply_face_filter env frame s))
    = [].
Proof.
  intros Hsel.
  assert (background_active s = false) as Hact.
  { unfold background_active. rewrite Hsel. apply andb_false_r. }
  split.
  - destruct (apply_face_filter_per_face_calls env frame s is_imread)
      as (faces & _ & Hpre); [done|].
    rewrite filter_imread, Hact in Hpre. by apply prefix_nil_inv in Hpre.
  - destruct (apply_face_filter_per_face_calls env frame s
                is_apply_background_change) as (faces & _ & Hpre); [done|].
    rewrite filter_apply_background_change, Hact in Hpre.
    by apply prefix_nil_inv in Hpre.
Qed.

Lemma no_selection_no_background_witness :
  let env := World.make World.with_space World.two_faces in
  let s := final (toggle_filter "Background" CameraApp_init) in
  filter_states s !! "Background" = Some true ∧
  List.filter is_imread (calls (apply_face_filter env World.frame6 s)) = [] ∧
  List.filter is_apply_background_change
    (calls (apply_face_filter env World.frame6 s)) = [].
Proof.
  intros env s. split; [reflexivity|].
  apply (no_selection_no_background env s World.frame6). reflexivity.
Defined.

(** X13. Whatever its outcome, a tick calls the detector at most once;
    and when no flag is set it calls neither the detector nor any
    compositing function, also when the tick fails. *)
Theorem detector_at_most_once_per_tick env reading s :
  let t := calls (update_frame env reading s) in
  length (List.filter is_process t) ≤ 1 ∧
  (any_values (filter_states s) = false →
   List.filter is_process t = [] ∧ List.filter is_compositing t = []).
Proof.
  assert (∀ frame, length (List.filter is_process
                             (calls (apply_face_filter env frame s))) ≤ 1) as Hone.
  { intros frame.
    destruct (cv2_cvtColor env frame) as [rgb|e] eqn:Hc; cycle 1.
    { unfold apply_face_filter, bind, extern, calls. rewrite Hc. simpl. lia. }
    destruct (FaceMesh_process env (face_mesh_max_num_faces s) rgb)
      as [results|e] eqn:Hp; cycle 1.
    { unfold apply_face_filter, bind, extern, gets, calls.
      rewrite Hc. simpl. rewrite Hp. simpl. lia. }
    rewrite (apply_face_filter_eq _ _ _ _ _ Hc Hp). unfold calls at 1. simpl.
    rewrite for_faces_no_process. simpl. lia. }
  destruct reading as [frame|]; [|simpl; split; [lia|done]].
  unfold update_frame, bind, extern, gets, calls. simpl.
  destruct (cv2_flip env frame) as [flipped|e]; [|simpl; split; [lia|done]].
  destruct (any_values (filter_states s)).
  - split; [|done]. specialize (Hone flipped). unfold calls in Hone.
    destruct (apply_face_filter env flipped s) as [[[shown|e] s2] t2];
      simpl in *; [|done].
    destruct (cv2_cvtColor env shown) as [rgb|e]; simpl.
    + destruct (QImage_RGB888 rgb); simpl;
        rewrite !List.filter_app, !length_app; simpl; lia.
    + rewrite !List.filter_app, !length_app; simpl; lia.
  - simpl. destruct (cv2_cvtColor env flipped) as [rgb|e]; simpl.
    + destruct (QImage_RGB888 rgb); simpl; split; (lia || done).
    + split; (lia || done).
Qed.

(** ** An overlay that raises *)

(** X14. There is no isolation between faces: when the pass of the
    loop body for one face raises, the loop ends there with that
    exception, and the faces after it in the detector's list get no
    overlay call at all. *)
Theorem face_error_stops_loop env earlier face later frame s f1 t1 e s' t2 :
  for_faces env earlier frame s = (Ok f1, s, t1) →
  face_body env f1 face s = (Raise e, s', t2) →
  for_faces env (earlier ++ face :: later) frame s = (Raise e, s, t1 ++ t2).
Proof.
  intros H1 H2. rewrite for_faces_app. unfold bind at 1. rewrite H1. simpl.
  unfold bind. rewrite H2.
  pose proof (read_only_face_body env f1 face s) as Hs.
  unfold final in Hs. rewrite H2 in Hs. simpl in Hs. by subst s'.
Qed.

Lemma face_error_stops_loop_witness :
  let env := World.make ∅ World.two_faces in
  let s := World.only_blush_key CameraApp_init in
  let face1 := World.face 1 [1; 2]%Z in
  for_faces env ([] ++ face1 :: [World.face 2 [2; 3]%Z]) World.frame6 s
    = (Raise (KeyError "Sunglasses"), s, [] ++ [Call_add_blush (landmark face1)]).
Proof.
  intros env s face1.
  apply (face_error_stops_loop env [] face1 [World.face 2 [2; 3]%Z]
           World.frame6 s World.frame6 [] (KeyError "Sunglasses") s);
    reflexivity.
Defined.

(** ** The timer *)

Lemma handle_timer_active env s ev :
  timer_active (handle env s ev) = is_start ev || timer_active s.
Proof.
  unfold handle. destruct ev as [| | | checked|reading| |]; simpl; try done.
  - by apply (keeps_toggle_filter timer_active).
  - by apply (keeps_toggle_filter timer_active).
  - by apply (keeps_toggle_filter timer_active).
  - by apply (keeps_toggle_background timer_active).
  - apply keeps_timer_update_frame.
  - apply (read_only_keeps timer_active). unfold capture_image.
    apply read_only_bind; [done|intros [f|]]; [|done]. read_only_tac.
Qed.

Lemma foldl_timer_active env evs : ∀ s,
  timer_active (foldl (handle env) s evs) = existsb is_start evs || timer_active s.
Proof.
  induction evs as [|ev evs IH]; intros s; simpl; [done|].
  rewrite IH, handle_timer_active.
  by destruct (is_start ev), (existsb is_start evs), (timer_active s).
Qed.

(** X15. Among the events of the widgets that [initUI] lays out, and
    the timer, none stops the timer: it is running exactly when Camera
    Start has been pressed at some point, and it stays running through
    every later event. *)
Theorem timer_runs_once_started env evs :
  timer_active (run env evs) = existsb is_start evs.
Proof.
  unfold run. rewrite foldl_timer_active. simpl. apply orb_false_r.
Qed.

(** ** What a completed tick stores *)

(** X16. A tick that completes stores in [current_frame] the mirrored
    camera frame as [apply_face_filter] returned it when some flag is
    set, and the mirrored frame itself otherwise: the frame before the
    colour conversion for display, overlays included.  The flags, the
    background selection and the detector configuration are as before. *)
Theorem completed_tick_stores_composited_frame env frame s s' t :
  update_frame env (Some frame) s = (Ok tt, s', t) →
  ∃ flipped shown,
    cv2_flip env frame = Ok flipped ∧
    (if any_values (filter_states s)
     then outcome (apply_face_filter env flipped s) = Ok shown
     else shown = flipped) ∧
    current_frame s' = Some shown ∧
    config s' = config s.
Proof.
  intros H.
  apply update_frame_Ok in H
    as (flipped & shown & tmid & rgb & pixmap & Hflip & Hmid & _ & _ & _
        & Hcur & Hcfg & _).
  exists flipped, shown. repeat split; try done.
  destruct (any_values (filter_states s)); [|by destruct Hmid].
  unfold outcome. by rewrite Hmid.
Qed.

Lemma completed_tick_stores_composited_frame_witness :
  let env := World.make ∅ World.two_faces in
  let s := run env [ToggleSunglasses] in
  ∃ s', current_frame s'
        = Some (NdArray [1; 2; 3] [40; 201; 202; 202; 20; 30]%Z) ∧
        config s' = config s.
Proof.
  intros env s.
  destruct (update_frame env (Some World.frame6) s) as [[r s'] t] eqn:E.
  assert (r = Ok tt) as -> by (by vm_compute in E; injection E as <- _ _).
  destruct (completed_tick_stores_composited_frame env World.frame6 s s' t E)
    as (flipped & shown & Hflip & Hmid & Hcur & Hcfg).
  injection Hflip as <-.
  change (any_values (filter_states s)) with true in Hmid.
  injection Hmid as <-.
  exists s'. split; [exact Hcur | exact Hcfg].
Defined.
